(** * IBM article recommender: the cleaning stage and the recommendation stage

    A shallow embedding of [clean_data.py] and [recommender.py].

    - [Py]: the pieces of Python the two scripts rely on: exceptions, the
      call protocol for positional parameters, slices, [int()] on text.
    - [Os]: the file system and the console, as far as the scripts touch them.
    - [Frame]: the pandas tables the scripts build: the interaction table,
      the user-item matrix and the few frame operations used on them.
    - [CleanData]: [clean_data.py].
    - [Recommender]: [recommender.py]. *)

From Stdlib Require Import ZArith QArith_base List Lia Ascii String.
From stdpp Require Import base option list gmap strings sorting pretty.

Local Open Scope Z_scope.
Set Warnings "-clear-no-such-hyp".

(** ** Python *)

Module Py.

(** The exceptions the two scripts can raise in the modelled fragment. *)
Inductive exn :=
  | TypeError
  | KeyError
  | ValueError
  | FileNotFoundError.

#[global] Instance exn_eq_dec : EqDecision exn.
Proof. solve_decision. Defined.

(** A Python computation either returns a value or raises. *)
Inductive result (A : Type) :=
  | Ok (a : A)
  | Raise (e : exn).
Arguments Ok {A} a.
Arguments Raise {A} e.

#[global] Instance result_ret : MRet result := @Ok.
#[global] Instance result_bind : MBind result := fun A B f m =>
  match m with
  | Ok a => f a
  | Raise e => Raise e
  end.

Definition is_ok {A} (r : result A) : bool :=
  match r with Ok _ => true | Raise _ => false end.

(** A positional parameter without a default, seen from the callee: the call
    site either passed a value for it or did not.  Python binds the arguments
    before it runs the body, and raises [TypeError] when one is missing. *)
Inductive arg (A : Type) :=
  | passed (a : A)
  | missing.
Arguments passed {A} a.
Arguments missing {A}.

Definition required {A} (a : arg A) : result A :=
  match a with
  | passed x => Ok x
  | missing => Raise TypeError
  end.

(** [d[k]] on a dict. *)
Definition getitem `{Countable K} {V} (d : gmap K V) (k : K) : result V :=
  match d !! k with
  | Some v => Ok v
  | None => Raise KeyError
  end.

(** [len(l)] *)
Definition len {A} (l : list A) : Z := Z.of_nat (length l).

(** [l[:m]]: a negative bound counts from the end. *)
Definition slice_to {A} (l : list A) (m : Z) : list A :=
  if decide (0 <= m) then take (Z.to_nat m) l
  else take (Z.to_nat (len l + m)) l.

(** [int(s)] for text [s], base ten, on ASCII text: the blanks around the
    number (tab, line feed, vertical tab, form feed, carriage return, space)
    are dropped, a sign may lead, and digits may be separated by single
    underscores.  Two things are outside the model: text with a character
    outside ASCII, which is refused here while Python also reads the digits
    and blanks of other scripts, and the interpreter's limit on the number
    of digits (4300 by default since Python 3.11).  The general statements
    below that go through [int] assume a successful parse here of text of at
    most 4300 characters. *)
Definition is_space (c : ascii) : bool :=
  let n := nat_of_ascii c in
  ((9 <=? n) && (n <=? 13) || (n =? 32))%nat.

Definition digit_of (c : ascii) : option Z :=
  let n := nat_of_ascii c in
  if ((48 <=? n) && (n <=? 57))%nat then Some (Z.of_nat (n - 48)) else None.

Fixpoint lstrip (s : list ascii) : list ascii :=
  match s with
  | c :: s' => if is_space c then lstrip s' else s
  | [] => []
  end.

Definition strip (s : list ascii) : list ascii :=
  rev (lstrip (rev (lstrip s))).

Fixpoint int_digits (acc : Z) (s : list ascii) : option Z :=
  match s with
  | [] => Some acc
  | "_"%char :: c :: s' => d ← digit_of c; int_digits (10 * acc + d) s'
  | c :: s' => d ← digit_of c; int_digits (10 * acc + d) s'
  end.

Definition int_unsigned (s : list ascii) : option Z :=
  match s with
  | c :: s' => d ← digit_of c; int_digits d s'
  | [] => None
  end.

Definition int (s : string) : result Z :=
  let parsed :=
    match strip (list_ascii_of_string s) with
    | "+"%char :: s' => int_unsigned s'
    | "-"%char :: s' => Z.opp <$> int_unsigned s'
    | s' => int_unsigned s'
    end in
  match parsed with
  | Some z => Ok z
  | None => Raise ValueError
  end.

End Py.
Export Py.

(** ** Tables *)

Module Frame.

(** A row of the interaction source as [read_csv] delivers it: the item id
    is a finite number (a rational here) or not (missing, not a number,
    infinite), the user identifier is text or missing. *)
Record raw_interaction := {
  raw_article_id : option Q;
  raw_title : string;
  raw_email : option string
}.

(** A row of the interaction source once [article_id] is an [int] and the
    rows without a user identifier are gone. *)
Record mail_interaction := {
  mail_article_id : Z;
  mail_title : string;
  email : string
}.

(** A row of the clean interaction table. *)
Record interaction := {
  article_id : Z;
  title : string;
  user_id : Z
}.

(** A row of the item source: the item id and the other columns. *)
Record article := {
  doc_article_id : Z;
  doc_fields : list string
}.

#[global] Instance interaction_eq_dec : EqDecision interaction.
Proof. solve_decision. Defined.

(** A frame of integers with labelled rows and columns: [index] are the row
    labels, [columns] the column labels, [values] the rows. *)
Record matrix := {
  index : list Z;
  columns : list Z;
  values : list (list Z)
}.

(** The keys of a [groupby]: distinct, ascending. *)
Fixpoint insert_unique (x : Z) (l : list Z) : list Z :=
  match l with
  | [] => [x]
  | y :: l' =>
      if decide (x < y) then x :: y :: l'
      else if decide (x = y) then y :: l'
      else y :: insert_unique x l'
  end.

Definition sorted_unique (l : list Z) : list Z := foldr insert_unique [] l.

(** Position of a label in an index. *)
Definition get_loc (labels : list Z) (k : Z) : result nat :=
  match list_find (λ x, x = k) labels with
  | Some (i, _) => Ok i
  | None => Raise KeyError
  end.

(** [m.loc[k, :]]: the row labelled [k]. *)
Definition loc (m : matrix) (k : Z) : result (list Z) :=
  i ← get_loc (index m) k;
  match values m !! i with
  | Some row => Ok row
  | None => Raise KeyError
  end.

(** [m.loc[u, i]]: one cell. *)
Definition at_ (m : matrix) (u i : Z) : result Z :=
  row ← loc m u;
  j ← get_loc (columns m) i;
  match row !! j with
  | Some v => Ok v
  | None => Raise KeyError
  end.

Definition sum_list (l : list Z) : Z := foldr Z.add 0 l.

(** The product of two rows over the same columns. *)
Definition dot_rows (r1 r2 : list Z) : Z :=
  sum_list (zip_with Z.mul r1 r2).

(** [m.dot(row)]: a series over the row labels of [m]. *)
Definition dot (m : matrix) (row : list Z) : list (Z * Z) :=
  zip (index m) (map (λ r, dot_rows r row) (values m)).

(** [row[row == 1].index.tolist()] for a row of [m]. *)
Definition labels_equal_1 (cols : list Z) (row : list Z) : list Z :=
  (filter (λ cv, cv.2 = 1) (zip cols row)).*1.

(** [df.groupby([key])[...].count()]: one line per key, keys ascending,
    with the number of rows of that key. *)
Definition groupby_count {A} (key : A → Z) (df : list A) : list (Z * Z) :=
  map (λ k, (k, len (filter (λ r, key r = k) df)))
      (sorted_unique (map key df)).

(** A stable sort by a boolean "goes before or ties with" test. *)
Section stable_sort.
Context {A : Type} (before : A → A → bool).

Fixpoint insert_sorted (x : A) (l : list A) : list A :=
  match l with
  | [] => [x]
  | y :: l' => if before x y then x :: y :: l' else y :: insert_sorted x l'
  end.

Definition stable_sort (l : list A) : list A := foldr insert_sorted [] l.

End stable_sort.

(** [df.drop_duplicates(subset=[key])]: the first row of every key stays. *)
Fixpoint drop_duplicates {A} (key : A → Z) (seen : list Z) (df : list A) : list A :=
  match df with
  | [] => []
  | r :: df' =>
      if decide (key r ∈ seen) then drop_duplicates key seen df'
      else r :: drop_duplicates key (key r :: seen) df'
  end.

(** [s.unique()]: the distinct values in the order they first appear. *)
Fixpoint unique `{EqDecision A} (seen : list A) (l : list A) : list A :=
  match l with
  | [] => []
  | x :: l' =>
      if decide (x ∈ seen) then unique seen l'
      else x :: unique (x :: seen) l'
  end.

(** [left.merge(right, how='left', on=key)] for a left frame of lines
    (key, a) and a right frame of lines (key, b): every left line, in order,
    with each right line of its key, or without a right value. *)
Definition merge_left {A B} (left : list (Z * A)) (right : list (Z * B))
    : list (Z * A * option B) :=
  left ≫= λ ka,
    match filter (λ kb, kb.1 = ka.1) right with
    | [] => [(ka.1, ka.2, None)]
    | matches => map (λ kb, (ka.1, ka.2, Some kb.2)) matches
    end.

End Frame.
Export Frame.

(** ** Files and console *)

Module Os.

(** What a file holds.  Parsing and printing of delimited text and the pickle
    format are outside the model: a file is the table it parses to.
    [unnamed0] says whether the export carries the unnamed index column.
    The matrix is written without its row labels ([index=False]), and its
    column labels are text in the file. *)
Inductive file :=
  | RawInteractions (unnamed0 : bool) (rows : list raw_interaction)
  | RawArticles (unnamed0 : bool) (rows : list article)
  | CleanInteractions (rows : list interaction)
  | CleanItems (rows : list article)
  | MatrixCsv (cols : list string) (vals : list (list Z))
  | Pickle (d : gmap string Z).

(** A value shown on the console through [str.format]. *)
Inductive shown :=
  | SInt (z : Z)
  | SStr (s : string)
  | SInts (l : list Z)
  | SStrs (l : list string).

(** [Print fmt args e] stands for [print(fmt.format( *args ), end=e)]: how
    the values are rendered as text is outside the model. *)
Inductive event :=
  | Print (fmt : string) (args : list shown) (end_ : string)
  | ReadFile (path : string)
  | WriteFile (path : string)
  | MakeDirs (path : string).

(** The directories that exist, the files by path, and what happened so far. *)
Record world := {
  dirs : gset string;
  files : gmap string file;
  trace : list event
}.

Definition log (e : event) (w : world) : world :=
  {| dirs := dirs w; files := files w; trace := trace w ++ [e] |}.

(** A computation with effects: it ends in a value or an exception, and in
    either case leaves a world behind. *)
Definition IO (A : Type) : Type := world → result A * world.

#[global] Instance IO_ret : MRet IO := λ A a w, (Ok a, w).
#[global] Instance IO_bind : MBind IO := λ A B f m w,
  match m w with
  | (Ok a, w') => f a w'
  | (Raise e, w') => (Raise e, w')
  end.

Definition lift {A} (r : result A) : IO A := λ w, (r, w).
Definition raise {A} (e : exn) : IO A := lift (Raise e).

Definition nl : string := String "010"%char "".

(** [print(fmt.format( *args ), end=e)] *)
Definition print_end (fmt : string) (args : list shown) (e : string) : IO unit :=
  λ w, (Ok (), log (Print fmt args e) w).

(** [print(s)] *)
Definition print (s : string) : IO unit := print_end s [] nl.

(** [print(fmt.format( *args ))] *)
Definition print_format (fmt : string) (args : list shown) : IO unit :=
  print_end fmt args nl.

(** Opening a file for reading. *)
Definition open_r (path : string) : IO file := λ w,
  match files w !! path with
  | Some f => (Ok f, log (ReadFile path) w)
  | None => (Raise FileNotFoundError, w)
  end.

(** Creating or overwriting the file [path] of the directory [dir]. *)
Definition open_w (dir path : string) (f : file) : IO unit := λ w,
  if decide (dir ∈ dirs w) then
    (Ok (), log (WriteFile path)
       {| dirs := dirs w; files := <[path := f]> (files w); trace := trace w |})
  else (Raise FileNotFoundError, w).

(** [pd.read_csv(path)]: a pickle is not text. *)
Definition read_csv (path : string) : IO file :=
  f ← open_r path;
  match f with
  | Pickle _ => raise ValueError
  | _ => mret f
  end.

(** [os.path.exists(dir)] for a directory *)
Definition path_exists (dir : string) : IO bool :=
  λ w, (Ok (bool_decide (dir ∈ dirs w)), w).

(** [os.makedirs(dir)] with the parent [parent] of [dir] *)
Definition makedirs (parent dir : string) : IO unit := λ w,
  (Ok (), log (MakeDirs dir)
     {| dirs := {[parent; dir]} ∪ dirs w; files := files w; trace := trace w |}).

End Os.
Export Os.

(** ** clean_data.py *)

Module CleanData.

(** The loop of [email_mapper] over the values of the [email] column, with
    its three variables. *)
Fixpoint encode_loop (vals : list string) (coded_dict : gmap string Z)
    (cter : Z) (email_encoded : list Z) : result (gmap string Z * list Z) :=
  match vals with
  | [] => Ok (coded_dict, email_encoded)
  | val :: vals' =>
      let '(coded_dict, cter) :=
        match coded_dict !! val with
        | None => (<[val := cter]> coded_dict, cter + 1)
        | Some _ => (coded_dict, cter)
        end in
      code ← getitem coded_dict val;
      encode_loop vals' coded_dict cter (email_encoded ++ [code])
  end.

Definition encodings_dir : string := "./email_encoding".
Definition encodings_pkl : string := "./email_encoding/encodings.pkl".

(** [email_mapper(df)].  The parameter [col] is not used by the body, which
    reads [df['email']]. *)
Definition email_mapper (df : list mail_interaction) : IO (list Z) :=
  '(coded_dict, email_encoded) ← lift (encode_loop (email <$> df) ∅ 1 []);
  _ ← open_w encodings_dir encodings_pkl (Pickle coded_dict);
  mret email_encoded.

(** The integer part of a number, rounded towards zero. *)
Definition truncate (q : Q) : Z := Z.quot (Qnum q) (Z.pos (Qden q)).

(** The casts of a number to a 64-bit integer: the integer part when it
    fits; otherwise the cast of numpy on x86-64, which answers the least
    64-bit integer. *)
Definition to_int64 (q : Q) : Z :=
  if decide (- 2 ^ 63 <= truncate q < 2 ^ 63) then truncate q else - 2 ^ 63.

(** [df['article_id'].astype(int)]: a value that is not finite cannot be
    cast, the others are cast to 64-bit integers. *)
Definition astype_int (df : list raw_interaction)
    : result (list (Z * string * option string)) :=
  mapM (λ r, match raw_article_id r with
             | Some a => Ok (to_int64 a, raw_title r, raw_email r)
             | None => Raise ValueError
             end) df.

(** [df[~df['email'].isnull()]] *)
Definition drop_null_email (df : list (Z * string * option string))
    : list mail_interaction :=
  omap (λ r, match r with
             | (a, t, Some e) =>
                 Some {| mail_article_id := a; mail_title := t; email := e |}
             | (_, _, None) => None
             end) df.

(** [read_csv] of the interaction source followed by the removal of the
    unnamed column.  A file of another kind lacks a column the code names. *)
Definition read_interactions (path : string) : IO (list raw_interaction) :=
  f ← read_csv path;
  match f with
  | RawInteractions true rows => mret rows
  | _ => raise KeyError
  end.

(** The same for the item source. *)
Definition read_articles (path : string) : IO (list article) :=
  f ← read_csv path;
  match f with
  | RawArticles true rows => mret rows
  | _ => raise KeyError
  end.

(** [df['user_id'] = ids] followed by [del df['email']] *)
Definition with_user_ids (df : list mail_interaction) (ids : list Z)
    : list interaction :=
  zip_with (λ r u, {| article_id := mail_article_id r;
                      title := mail_title r;
                      user_id := u |}) df ids.

(** [clean_data(user_item_path, articles_path)] *)
Definition clean_data (user_item_path articles_path : string)
    : IO (list interaction * list article) :=
  user_item_df ← read_interactions user_item_path;
  user_item_df ← lift (astype_int user_item_df);
  let user_item_df := drop_null_email user_item_df in
  ids ← email_mapper user_item_df;
  (* a column assigned from a list must have the length of the frame *)
  if decide (length ids = length user_item_df) then
    let user_item_df := with_user_ids user_item_df ids in
    articles_df ← read_articles articles_path;
    let articles_df := drop_duplicates doc_article_id [] articles_df in
    mret (user_item_df, articles_df)
  else raise ValueError.

(** The pivot of the interaction table: a cell holds the sum of the
    [view_count] of its rows, and no value when it has no row. *)
Record pivot := {
  pivot_index : list Z;
  pivot_columns : list Z;
  pivot_values : list (list (option Z))
}.

Definition agg_sum (group : list (interaction * Z)) : option Z :=
  match group with
  | [] => None
  | _ => Some (sum_list (group.*2))
  end.

(** [pd.pivot_table(df_copy, values='view_count', index=['user_id'],
    columns=['article_id'], aggfunc=np.sum)] *)
Definition pivot_table (df_copy : list (interaction * Z)) : pivot :=
  let idx := sorted_unique (map (λ r, user_id r.1) df_copy) in
  let cols := sorted_unique (map (λ r, article_id r.1) df_copy) in
  {| pivot_index := idx;
     pivot_columns := cols;
     pivot_values :=
       map (λ u, map (λ i, agg_sum (filter (λ r, user_id r.1 = u ∧
                                                  article_id r.1 = i) df_copy))
                     cols) idx |}.

(** [pivot >= 1]: a comparison with a missing value is false. *)
Definition ge_1 (c : option Z) : bool :=
  match c with
  | Some v => bool_decide (1 <= v)
  | None => false
  end.

(** [b * 1] *)
Definition times_1 (b : bool) : Z := if b then 1 else 0.

(** [create_user_item_matrix(df)] *)
Definition create_user_item_matrix (df : list interaction) : matrix :=
  let df_copy := map (λ r, (r, 1)) df in
  let pivot := pivot_table df_copy in
  {| index := pivot_index pivot;
     columns := pivot_columns pivot;
     values := map (map (λ c, times_1 (ge_1 c))) (pivot_values pivot) |}.

(** The three frames the cleaning stage saves. *)
Inductive dataset :=
  | UserItem (df : list interaction)
  | Item (df : list article)
  | UserItemMatrix (m : matrix).

(** [df.to_csv(path, index=False)]: the row labels are not written, the
    column labels of the matrix are written as decimal numerals. *)
Definition to_csv (df : dataset) : file :=
  match df with
  | UserItem rows => CleanInteractions rows
  | Item rows => CleanItems rows
  | UserItemMatrix m => MatrixCsv (pretty <$> columns m) (values m)
  end.

Definition data_dir : string := "./data".
Definition output_dir : string := "./data/processed".
Definition output_folder : string := "./data/processed/".

(** [save_data(df, dataset_type)] *)
Definition save_data (df : dataset) (dataset_type : string) : IO unit :=
  found ← path_exists output_dir;
  _ ← (if found : bool then mret () else makedirs data_dir output_dir) : IO unit;
  if decide (dataset_type = "user-item") then
    open_w output_dir (output_folder +:+ "user-item-clean.csv") (to_csv df)
  else if decide (dataset_type = "item") then
    open_w output_dir (output_folder +:+ "item-clean.csv") (to_csv df)
  else if decide (dataset_type = "user-item-matrix") then
    open_w output_dir (output_folder +:+ "user-item-matrix.csv") (to_csv df)
  else
    print ("Error in save_data() function: dataset_type incorrect." +:+ nl +:+
           "Function expects" +:+
           "dataset_type to be either 'user-item', 'item' or 'user-item-matrix'.").

Definition usage : string :=
  "Please provide the filepath of the ibm user-item interactions dataset " +:+
  "as the first argument and the filepath of the articles dataset to " +:+
  "clean data and save it on disk. " +:+ nl +:+ nl +:+ "Example: python " +:+
  "clean_data.py ./data/user-item-interactions.csv ./data/articles_community.csv".

(** The loop of [main] over [data_dict.items()]. *)
Fixpoint save_all (data_dict : list (string * dataset)) : IO unit :=
  match data_dict with
  | [] => mret ()
  | (dataset_type, dataset) :: rest =>
      _ ← print_end "   DATA FILE: {}..." [SStr dataset_type] "";
      _ ← save_data dataset dataset_type;
      _ ← print "saved.";
      save_all rest
  end.

(** [main()], with [sys.argv] as its input. *)
Definition main (argv : list string) : IO unit :=
  match argv with
  | [_; user_item_path; articles_path] =>
      _ ← print_end ("1/3. Loading and cleaning data..." +:+ nl +:+
                     "   DATA FILE: {}" +:+ nl +:+ "    DATA FILE: {}")
                    [SStr user_item_path; SStr articles_path] "";
      '(user_item_df, articles_df) ← clean_data user_item_path articles_path;
      _ ← print "...done.";
      _ ← print_end "2/3. Creating user-item interaction matrix..." [] "";
      let user_item_matrix := create_user_item_matrix user_item_df in
      _ ← print "...done.";
      let data_dict :=
        [("user-item", UserItem user_item_df);
         ("item", Item articles_df);
         ("user-item-matrix", UserItemMatrix user_item_matrix)] in
      _ ← print "3/3. Saving data to disk:";
      save_all data_dict
  | _ => print usage
  end.

End CleanData.

(** ** recommender.py *)

Module Recommender.

(** The functions that some call site of the script calls with fewer
    arguments than they have parameters take their parameters as [arg]. *)

Definition clean_user_item : string := "./data/processed/user-item-clean.csv".
Definition clean_item : string := "./data/processed/item-clean.csv".
Definition clean_matrix : string := "./data/processed/user-item-matrix.csv".

(** [load_data()] *)
Definition load_data : IO (file * file * file) :=
  user_item_df ← read_csv clean_user_item;
  item_df ← read_csv clean_item;
  user_item_matrix ← read_csv clean_matrix;
  mret (user_item_df, item_df, user_item_matrix).

(** The loaded interaction frame seen through its columns [article_id],
    [title] and [user_id]: another frame lacks one of them. *)
Definition as_interactions (f : file) : result (list interaction) :=
  match f with
  | CleanInteractions rows => Ok rows
  | _ => Raise KeyError
  end.

(** [get_article_names(article_ids, df)] *)
Definition get_article_names (article_ids : arg (list Z))
    (df : arg (list interaction)) : result (list string) :=
  article_ids ← required article_ids;
  df ← required df;
  let article_title_series :=
    title <$> filter (λ r, article_id r ∈ article_ids) df in
  let article_names := unique [] article_title_series in
  Ok article_names.

(** [views.sort_values(by=count, ascending=False)]: the view counts per
    item, most viewed first.  pandas sorts one key with numpy's quicksort,
    which fixes no order among lines of equal count; here such lines keep
    the order of the [groupby].  The result is that of the program whenever
    no two items have the same count (lemma [sort_by_count_determined]),
    and the statements below that depend on the order assume so. *)
Definition sort_by_count (views : list (Z * Z)) : list (Z * Z) :=
  stable_sort (λ a b, bool_decide (b.2 <= a.2)) views.

(** [get_top_articles(df, n)] *)
Definition get_top_articles (df : list interaction) (n : Z) : list string :=
  let views_per_article := sort_by_count (groupby_count article_id df) in
  let top_n_views_per_article := slice_to views_per_article n in
  let top_article_ids := top_n_views_per_article.*1 in
  let articles_df := unique [] (map (λ r, (article_id r, title r)) df) in
  let top_articles :=
    top_article_ids ≫= λ i, (filter (λ it, it.1 = i) articles_df).*2 in
  top_articles.

(** [is_new_user(user_id, df)] *)
Definition is_new_user (user_id : Z) (df : list interaction) : bool :=
  let is_new := bool_decide (user_id ∈ map Frame.user_id df) in
  is_new.

(** [user_views[user_views == 1].index.tolist()] for the row of a user. *)
Definition viewed_ids (user_item : matrix) (user_id : Z) : result (list Z) :=
  user_views ← loc user_item user_id;
  Ok (labels_equal_1 (columns user_item) user_views).

(** [get_user_articles(user_id, user_item)] *)
Definition get_user_articles (user_id : arg Z) (user_item : arg matrix)
    : result (list Z * list string) :=
  user_id ← required user_id;
  user_item ← required user_item;
  article_ids ← viewed_ids user_item user_id;
  article_names ← get_article_names (passed article_ids) missing;
  Ok (article_ids, article_names).

(** A line of [neighbors_df]. *)
Record neighbor := {
  neighbor_id : Z;
  similarity : Z;
  num_interactions : option Z
}.

(** Descending order on a count column in which values may be missing: the
    missing ones come last. *)
Definition count_ge (a b : option Z) : bool :=
  match a, b with
  | _, None => true
  | None, Some _ => false
  | Some x, Some y => bool_decide (y <= x)
  end.

(** [x] is placed no later than [y] by
    [sort_values(['similarity', 'num_interactions'], ascending=[False, False])]. *)
Definition neighbor_before (x y : neighbor) : bool :=
  bool_decide (similarity y < similarity x) ||
  (bool_decide (similarity y = similarity x) &&
   count_ge (num_interactions x) (num_interactions y)).

(** The last two steps of [get_top_sorted_users]: the sort and the removal of
    the lines of [user_id]. *)
Definition rank_neighbors (user_id : Z) (neighbors_df : list neighbor)
    : list neighbor :=
  let neighbors_df := stable_sort neighbor_before neighbors_df in
  filter (λ r, neighbor_id r ≠ user_id) neighbors_df.

(** [get_top_sorted_users(user_id, df, user_item)] *)
Definition get_top_sorted_users (user_id : arg Z) (df : arg (list interaction))
    (user_item : arg matrix) : result (list neighbor) :=
  user_id ← required user_id;
  df ← required df;
  user_item ← required user_item;
  row_1 ← loc user_item 1;
  let user_similarity := dot user_item row_1 in
  let user_interactions := groupby_count Frame.user_id df in
  let neighbors_df :=
    map (λ r, {| neighbor_id := r.1.1;
                 similarity := r.1.2;
                 num_interactions := r.2 |})
        (merge_left user_similarity user_interactions) in
  Ok (rank_neighbors user_id neighbors_df).

(** The loop of [user_user_recs] over the neighbours.  [call_articles] and
    [call_names] are its two calls, [get_user_articles(neighbor_id)] and
    [get_article_names(user_recos)]. *)
Fixpoint recs_loop (call_articles : Z → result (list Z * list string))
    (call_names : list Z → result (list string))
    (seen_article_ids : list Z) (article_views : list (Z * Z)) (m : Z)
    (neighbors : list Z) (recs : list Z) (rec_names : list string)
    : result (list Z * list string) :=
  match neighbors with
  | [] => Ok (recs, rec_names)
  | neighbor_id :: neighbors' =>
      '(article_ids, _) ← call_articles neighbor_id;
      let user_reco_ids :=
        filter (λ item, item ∉ seen_article_ids) article_ids in
      let recommended_articles :=
        filter (λ av, av.1 ∈ user_reco_ids) article_views in
      let user_recos := recommended_articles.*1 in
      user_reco_names ← call_names user_recos;
      let recs := recs ++ user_recos in
      let rec_names := rec_names ++ user_reco_names in
      if decide (m <= len recs) then Ok (recs, rec_names)
      else recs_loop call_articles call_names seen_article_ids article_views m
             neighbors' recs rec_names
  end.

(** [user_user_recs(user_id, df, m)] *)
Definition user_user_recs (user_id : Z) (df : list interaction) (m : Z)
    : result (list Z * list string) :=
  '(seen_article_ids, _) ← get_user_articles (passed user_id) missing;
  let article_views := sort_by_count (groupby_count article_id df) in
  neighbors_df ← get_top_sorted_users (passed user_id) missing missing;
  '(recs, rec_names) ←
    recs_loop (λ neighbor_id, get_user_articles (passed neighbor_id) missing)
              (λ user_recos, get_article_names (passed user_recos) missing)
              seen_article_ids article_views m
              (neighbor_id <$> neighbors_df) [] [];
  Ok (slice_to recs m, slice_to rec_names m).

(** What [main] returns: the titles of the cold path, or the pair of
    the warm path. *)
Inductive recommendations :=
  | Titles (top_articles : list string)
  | Recs (recs : list Z) (rec_names : list string).

(** The lines [enumerate(recommendations)] runs over. *)
Definition enumerate (r : recommendations) : list (Z * shown) :=
  match r with
  | Titles l => imap (λ i t, (Z.of_nat i, SStr t)) l
  | Recs recs rec_names => [(0, SInts recs); (1, SStrs rec_names)]
  end.

Fixpoint print_lines (lines : list (Z * shown)) : IO unit :=
  match lines with
  | [] => mret ()
  | (idx, reco) :: rest =>
      _ ← print_format "{}. {}" [SInt (idx + 1); reco];
      print_lines rest
  end.

Definition usage : string :=
  "Please provide a single user_id to make recommendations to" +:+
  nl +:+ "Example: python " +:+ "recommender.py 5148 10".

(** [main()], with [sys.argv] as its input; [None] is Python's [None]. *)
Definition main (argv : list string) : IO (option recommendations) :=
  match argv with
  | [_; user_id; reco_count] =>
      user_id ← lift (int user_id);
      reco_count ← lift (int reco_count);
      '(user_item_df, item_df, user_item_matrix) ← load_data;
      user_item_df ← lift (as_interactions user_item_df);
      recommendations ←
        (if is_new_user user_id user_item_df then
           mret (Titles (get_top_articles user_item_df reco_count))
         else
           '(recs, rec_names) ← lift (user_user_recs user_id user_item_df reco_count);
           mret (Recs recs rec_names)) : IO recommendations;
      _ ← print_format "Top {} recommendations for user {}:"
                       [SInt reco_count; SInt user_id];
      _ ← print_lines (enumerate recommendations);
      mret (Some recommendations)
  | _ =>
      _ ← print usage;
      mret None
  end.

End Recommender.

(** * Properties *)

Import CleanData Recommender.

(** ** Vocabulary of the statements *)

(** What the loop keeps true: [order] lists the identifiers met so far in
    the order they were first met, the dictionary sends the n-th of them
    (from 0) to n + 1, and the counter is the next unused id. *)
Definition numbered (coded_dict : gmap string Z) (order : list string) : Prop :=
  ∀ x k, coded_dict !! x = Some k ↔
         ∃ n : nat, order !! n = Some x ∧ k = Z.of_nat n + 1.

(** The world a successful run leaves behind: the mapping is written over
    whatever the encodings file held. *)
Definition persisted (coded_dict : gmap string Z) (w : world) : world :=
  log (WriteFile encodings_pkl)
    {| dirs := dirs w;
       files := <[encodings_pkl := Pickle coded_dict]> (files w);
       trace := trace w |}.

(** A row of the interaction source with the user identifier [e]. *)
Definition mail (e : string) : mail_interaction :=
  {| mail_article_id := 0; mail_title := ""; email := e |}.

(** The rows of the interaction source that carry a user identifier, in
    source order, with their item id. *)
Definition mail_rows (rows : list raw_interaction) : list mail_interaction :=
  omap (λ r, a ← raw_article_id r; e ← raw_email r;
             Some {| mail_article_id := to_int64 a; mail_title := raw_title r;
                     email := e |}) rows.

(** The world once the output folder is there: as it is, or with the
    folder and its parent made. *)
Definition ensure_output (w : world) : world :=
  if bool_decide (output_dir ∈ dirs w) then w
  else log (MakeDirs output_dir)
         {| dirs := {[data_dir; output_dir]} ∪ dirs w;
            files := files w; trace := trace w |}.

(** The world after the file [f] is saved at [path] of the output folder. *)
Definition saved (path : string) (f : file) (w : world) : world :=
  log (WriteFile path)
    {| dirs := dirs (ensure_output w);
       files := <[path := f]> (files (ensure_output w));
       trace := trace (ensure_output w) |}.

(** A world with the two sources of a cleaning run and the encodings
    folder.  The second row of the interaction source has no user
    identifier, the item source repeats item 10. *)
Definition raw_world : world :=
  {| dirs := {[encodings_dir]};
     files :=
       {[ "interactions.csv" :=
            RawInteractions true
              [ {| raw_article_id := Some (inject_Z 10); raw_title := "ten";
                   raw_email := Some "a" |};
                {| raw_article_id := Some (inject_Z 20); raw_title := "twenty";
                   raw_email := None |};
                {| raw_article_id := Some (inject_Z 20); raw_title := "twenty";
                   raw_email := Some "b" |} ];
          "articles.csv" :=
            RawArticles true
              [ {| doc_article_id := 10; doc_fields := ["ten"] |};
                {| doc_article_id := 20; doc_fields := ["twenty"] |};
                {| doc_article_id := 10; doc_fields := ["ten again"] |} ] ]};
     trace := [] |}.

(** The user [u] has a row for the item [i] in the table. *)
Definition interacted (df : list interaction) (u i : Z) : Prop :=
  ∃ r, r ∈ df ∧ user_id r = u ∧ article_id r = i.

(** [interacted], in a form that can be decided. *)
Definition presence_of (df : list interaction) (u i : Z) : Prop :=
  Exists (λ r, user_id r = u ∧ article_id r = i) df.

(** The items both users have a row for, ascending. *)
Definition common_items (df : list interaction) (u v : Z) : list Z :=
  filter (λ i, presence_of df u i ∧ presence_of df v i)
         (sorted_unique (article_id <$> df)).

(** The value [create_user_item_matrix] puts in the cell of a user and an
    item. *)
Definition presence (df : list interaction) (u i : Z) : Z :=
  times_1 (ge_1 (agg_sum (filter (λ r : interaction * Z,
                                    user_id r.1 = u ∧ article_id r.1 = i)
                                 (map (λ r, (r, 1)) df)))).


(** The frame [get_top_sorted_users] sorts: the similarities to [row] joined
    with the interaction counts. *)
Definition joined (df : list interaction) (user_item : matrix) (row : list Z)
    : list neighbor :=
  map (λ r : Z * Z * option Z,
         {| neighbor_id := r.1.1; similarity := r.1.2; num_interactions := r.2 |})
      (merge_left (dot user_item row) (groupby_count user_id df)).

(** The table of the examples of the warm path: user 1 has seen item 10
    (twice), user 2 the items 10 and 20, user 3 the items 20 and 30.  No two
    items have the same number of views. *)
Definition three_users : list interaction :=
  [ {| article_id := 10; title := "ten"; user_id := 1 |};
    {| article_id := 10; title := "ten"; user_id := 1 |};
    {| article_id := 10; title := "ten"; user_id := 2 |};
    {| article_id := 20; title := "twenty"; user_id := 2 |};
    {| article_id := 20; title := "twenty"; user_id := 3 |};
    {| article_id := 30; title := "thirty"; user_id := 3 |} ].

(** A world after a cleaning run over [three_users]. *)
Definition cleaned_world : world :=
  {| dirs := {[data_dir; output_dir]};
     files :=
       {[ clean_user_item := to_csv (UserItem three_users);
          clean_item := to_csv (Item []);
          clean_matrix :=
            to_csv (UserItemMatrix (create_user_item_matrix three_users)) ]};
     trace := [] |}.

(** The world of a cleaning run whose matrix file has since been removed:
    the encodings file, the clean table and the item table are there. *)
Definition world_without_matrix : world :=
  {| dirs := {[encodings_dir; data_dir; output_dir]};
     files :=
       {[ encodings_pkl := Pickle {["a" := 1; "b" := 2; "c" := 3]};
          clean_user_item := to_csv (UserItem three_users);
          clean_item := to_csv (Item []) ]};
     trace := [] |}.

(** ** Frames *)

Section frame_facts.

Lemma unique_seen_equiv `{EqDecision A} (s1 s2 l : list A) :
  (∀ x, x ∈ s1 ↔ x ∈ s2) → unique s1 l = unique s2 l.
Proof.
  revert s1 s2. induction l as [|x l IH]; intros s1 s2 Hs; [done|].
  simpl. destruct (decide (x ∈ s1)) as [H1|H1], (decide (x ∈ s2)) as [H2|H2].
  - by apply IH.
  - by apply Hs in H1.
  - by apply Hs in H2.
  - f_equal. apply IH. intros y. rewrite !elem_of_cons. by rewrite Hs.
Qed.

Lemma elem_of_unique `{EqDecision A} (seen l : list A) (x : A) :
  x ∈ unique seen l ↔ x ∈ l ∧ x ∉ seen.
Proof.
  revert seen. induction l as [|y l IH]; intros seen; simpl.
  - rewrite elem_of_nil. naive_solver.
  - destruct (decide (y ∈ seen)) as [Hy|Hy].
    + rewrite IH, elem_of_cons. naive_solver.
    + rewrite !elem_of_cons, IH, elem_of_cons.
      destruct (decide (x = y)); naive_solver.
Qed.

Lemma NoDup_unique `{EqDecision A} (seen l : list A) : NoDup (unique seen l).
Proof.
  revert seen. induction l as [|y l IH]; intros seen; simpl.
  - constructor.
  - destruct (decide (y ∈ seen)); [apply IH|].
    constructor; [|apply IH].
    rewrite elem_of_unique, elem_of_cons. naive_solver.
Qed.

Lemma elem_of_insert_unique x y l :
  x ∈ insert_unique y l ↔ x = y ∨ x ∈ l.
Proof.
  induction l as [|z l IH]; simpl.
  - rewrite list_elem_of_singleton, elem_of_nil. naive_solver.
  - repeat case_decide; rewrite ?elem_of_cons, ?IH; naive_solver.
Qed.

Lemma elem_of_sorted_unique x l : x ∈ sorted_unique l ↔ x ∈ l.
Proof.
  induction l as [|y l IH]; [done|].
  unfold sorted_unique in *. simpl.
  rewrite elem_of_insert_unique, IH, elem_of_cons. done.
Qed.

Lemma get_loc_elem_of labels k :
  k ∈ labels → ∃ i : nat, get_loc labels k = Ok i ∧ labels !! i = Some k.
Proof.
  intros Hk. unfold get_loc.
  destruct (list_find_elem_of (λ x, x = k) labels k Hk eq_refl) as [[i y] Hf].
  rewrite Hf. apply list_find_Some in Hf as (Hi & -> & _). eauto.
Qed.

(** A cell of a frame whose rows are computed from the labels. *)
Lemma at_tabulate (f : Z → Z → Z) idx cols u i :
  u ∈ idx → i ∈ cols →
  at_ {| index := idx; columns := cols;
         values := map (λ u, map (λ i, f u i) cols) idx |} u i = Ok (f u i).
Proof.
  intros Hu Hi. unfold at_, loc. simpl.
  destruct (get_loc_elem_of idx u Hu) as (p & -> & Hp).
  destruct (get_loc_elem_of cols i Hi) as (q & Hq' & Hq).
  simpl. rewrite list_lookup_fmap, Hp. simpl. rewrite Hq'. simpl.
  by rewrite list_lookup_fmap, Hq.
Qed.

Lemma loc_tabulate (f : Z → Z → Z) idx cols u :
  u ∈ idx →
  loc {| index := idx; columns := cols;
         values := map (λ u, map (λ i, f u i) cols) idx |} u
  = Ok (map (λ i, f u i) cols).
Proof.
  intros Hu. unfold loc. simpl.
  destruct (get_loc_elem_of idx u Hu) as (p & -> & Hp).
  simpl. by rewrite list_lookup_fmap, Hp.
Qed.

Lemma groupby_count_keys {A} (key : A → Z) df :
  (groupby_count key df).*1 = sorted_unique (map key df).
Proof.
  unfold groupby_count. rewrite <- list_fmap_compose.
  apply list_fmap_id.
Qed.

Lemma merge_left_keys {A B} (left : list (Z * A)) (right : list (Z * B)) k :
  k ∈ (merge_left left right).*1.*1 ↔ k ∈ left.*1.
Proof.
  unfold merge_left. rewrite !list_elem_of_fmap. split.
  - intros (ka & -> & (kab & -> & Hin)%list_elem_of_fmap).
    apply list_elem_of_bind in Hin as (l & Hin & Hl).
    exists l. split; [|done].
    destruct (filter _ right) as [|m ms].
    + by apply list_elem_of_singleton in Hin as ->.
    + by apply list_elem_of_fmap in Hin as (kb & -> & _).
  - intros (l & -> & Hl).
    destruct (filter (λ kb : Z * B, kb.1 = l.1) right) as [|m ms] eqn:Hf.
    + exists (l.1, l.2). split; [done|]. apply list_elem_of_fmap.
      exists (l.1, l.2, None). split; [done|].
      apply list_elem_of_bind. exists l. split; [|done].
      rewrite Hf. apply list_elem_of_here.
    + exists (l.1, l.2). split; [done|]. apply list_elem_of_fmap.
      exists (l.1, l.2, Some m.2). split; [done|].
      apply list_elem_of_bind. exists l. split; [|done].
      rewrite Hf. apply list_elem_of_here.
Qed.

Lemma merge_left_matched {A B} (left : list (Z * A)) (right : list (Z * B)) line :
  line ∈ merge_left left right → line.1.1 ∈ right.*1 → is_Some line.2.
Proof.
  unfold merge_left. intros (l & Hin & Hl)%list_elem_of_bind Hkey.
  destruct (filter (λ kb : Z * B, kb.1 = l.1) right) as [|m ms] eqn:Hf.
  - apply list_elem_of_singleton in Hin as ->. simpl in Hkey.
    apply list_elem_of_fmap in Hkey as (kb & Hk & Hkb).
    assert (kb ∈ filter (λ kb : Z * B, kb.1 = l.1) right) as Hno.
    { by apply list_elem_of_filter. }
    rewrite Hf in Hno. by apply elem_of_nil in Hno.
  - apply list_elem_of_fmap in Hin as (kb & -> & _). by eexists.
Qed.

Lemma merge_left_left {A B} (left : list (Z * A)) (right : list (Z * B)) line :
  line ∈ merge_left left right → (line.1.1, line.1.2) ∈ left.
Proof.
  unfold merge_left. intros (l & Hin & Hl)%list_elem_of_bind.
  destruct (filter (λ kb : Z * B, kb.1 = l.1) right) as [|m ms].
  - apply list_elem_of_singleton in Hin as ->. simpl. by destruct l.
  - apply list_elem_of_fmap in Hin as (kb & -> & _). simpl. by destruct l.
Qed.

Section sort_facts.
Context {A : Type} (before : A → A → bool).
Hypothesis before_total : ∀ x y, before x y = true ∨ before y x = true.
Hypothesis before_trans :
  ∀ x y z, before x y = true → before y z = true → before x z = true.

Lemma insert_sorted_perm x l : insert_sorted before x l ≡ₚ x :: l.
Proof.
  induction l as [|y l IH]; simpl; [done|].
  destruct (before x y); [done|]. rewrite IH. apply Permutation_swap.
Qed.

Lemma stable_sort_perm l : stable_sort before l ≡ₚ l.
Proof.
  induction l as [|x l IH]; [done|].
  unfold stable_sort in *. simpl. by rewrite insert_sorted_perm, IH.
Qed.

Lemma insert_sorted_sorted x l :
  StronglySorted (λ a b, before a b = true) l →
  StronglySorted (λ a b, before a b = true) (insert_sorted before x l).
Proof.
  induction 1 as [|y l Hl IH Hy]; simpl.
  - repeat constructor.
  - destruct (before x y) eqn:Hxy.
    + constructor; [by constructor|].
      constructor; [done|].
      eapply Forall_impl; [exact Hy|]. intros z Hz. by eapply before_trans.
    + constructor; [done|].
      rewrite insert_sorted_perm. constructor; [|done].
      destruct (before_total x y); congruence.
Qed.

Lemma stable_sort_sorted l :
  StronglySorted (λ a b, before a b = true) (stable_sort before l).
Proof.
  induction l as [|x l IH]; [constructor|].
  unfold stable_sort in *. simpl. by apply insert_sorted_sorted.
Qed.

End sort_facts.

Lemma StronglySorted_filter {A} (R : relation A) (P : A → Prop)
    `{∀ x, Decision (P x)} l :
  StronglySorted R l → StronglySorted R (filter P l).
Proof.
  induction 1 as [|x l Hl IH Hx]; [constructor|].
  rewrite filter_cons. case_decide; [|done].
  constructor; [done|].
  apply Forall_forall. intros y [_ Hy]%list_elem_of_filter.
  by eapply Forall_forall in Hx.
Qed.

End frame_facts.

(** ** The anonymizer *)

Section anonymizer.

Lemma numbered_empty : numbered ∅ [].
Proof.
  intros x k. rewrite lookup_empty. split; [done|].
  intros (n & Hn & _). by rewrite lookup_nil in Hn.
Qed.

Lemma numbered_fresh d order val :
  NoDup order → numbered d order → d !! val = None →
  (val ∉ order) ∧
  numbered (<[val := Z.of_nat (length order) + 1]> d) (order ++ [val]).
Proof.
  intros Hnd Hnum Hval.
  assert (val ∉ order) as Hnotin.
  { intros (n & Hn)%list_elem_of_lookup.
    assert (d !! val = Some (Z.of_nat n + 1)) as Hd by (apply Hnum; eauto).
    congruence. }
  split; [done|]. intros x k. rewrite lookup_insert. case_decide as Hx.
  - subst x. split.
    + intros [= <-]. exists (length order). split; [|done].
      by rewrite lookup_app_r, Nat.sub_diag by lia.
    + intros (n & Hn & ->). f_equal.
      destruct (decide (n < length order)%nat) as [Hlt|Hge].
      * rewrite lookup_app_l in Hn by done.
        destruct Hnotin. apply list_elem_of_lookup. eauto.
      * apply lookup_lt_Some in Hn. rewrite length_app in Hn. simpl in Hn.
        lia.
  - rewrite (Hnum x k). split; intros (n & Hn & ->).
    + exists n. split; [|done]. apply lookup_app_l_Some. done.
    + exists n. split; [|done].
      apply lookup_app_Some in Hn as [Hn|[_ Hn]]; [done|].
      apply list_lookup_singleton_Some in Hn as [_ ->]. done.
Qed.

Lemma encode_loop_spec vals : ∀ d acc order,
  NoDup order → numbered d order →
  ∃ d' enc,
    encode_loop vals d (Z.of_nat (length order) + 1) acc = Ok (d', acc ++ enc) ∧
    length enc = length vals ∧
    numbered d' (order ++ unique order vals) ∧
    ∀ (i : nat) x, vals !! i = Some x →
      ∃ n : nat, (order ++ unique order vals) !! n = Some x ∧
                 enc !! i = Some (Z.of_nat n + 1).
Proof.
  induction vals as [|val vals IH]; intros d acc order Hnd Hnum.
  - exists d, []. simpl. rewrite !app_nil_r. split_and!; try done.
  - simpl. destruct (d !! val) as [k|] eqn:Hval.
    + assert (val ∈ order ∧ ∃ n : nat, order !! n = Some val ∧ k = Z.of_nat n + 1)
        as [Hin (n & Hn & ->)].
      { apply Hnum in Hval as (n & Hn & ->). split; [|eauto].
        apply list_elem_of_lookup; eauto. }
      unfold getitem. rewrite Hval. simpl.
      destruct (IH d (acc ++ [Z.of_nat n + 1]) order Hnd Hnum)
        as (d' & enc & Hrun & Hlen & Hnum' & Henc).
      exists d', ((Z.of_nat n + 1) :: enc).
      rewrite decide_True by done.
      rewrite Hrun, <- app_assoc. simpl. split_and!; try done; [lia|].
      intros [|i] x Hx; simpl in Hx.
      * injection Hx as <-. exists n. split; [|done].
        by apply lookup_app_l_Some.
      * by apply Henc.
    + destruct (numbered_fresh d order val Hnd Hnum Hval) as [Hnotin Hnum1].
      unfold getitem. rewrite lookup_insert_eq. simpl.
      assert (NoDup (order ++ [val])) as Hnd1.
      { apply NoDup_app. repeat split; [done| |apply NoDup_singleton].
        intros x Hx ->%list_elem_of_singleton. done. }
      destruct (IH (<[val := Z.of_nat (length order) + 1]> d)
                  (acc ++ [Z.of_nat (length order) + 1]) (order ++ [val])
                  Hnd1 Hnum1) as (d' & enc & Hrun & Hlen & Hnum' & Henc).
      rewrite length_app in Hrun. simpl in Hrun.
      replace (Z.of_nat (length order + 1) + 1)
        with (Z.of_nat (length order) + 1 + 1) in Hrun by lia.
      exists d', ((Z.of_nat (length order) + 1) :: enc).
      rewrite decide_False by done.
      rewrite (unique_seen_equiv (val :: order) (order ++ [val])).
      2:{ intros y. rewrite elem_of_cons, elem_of_app, list_elem_of_singleton.
          naive_solver. }
      rewrite Hrun, <- !app_assoc. simpl. rewrite <- app_assoc in Hnum', Henc.
      simpl in Hnum', Henc. split_and!; try done; [lia|].
      intros [|i] x Hx; simpl in Hx.
      * injection Hx as <-. exists (length order). split; [|done].
        by rewrite lookup_app_r, Nat.sub_diag by lia.
      * by apply Henc.
Qed.

Lemma email_mapper_run df w coded_dict email_encoded :
  encode_loop (email <$> df) ∅ 1 [] = Ok (coded_dict, email_encoded) →
  encodings_dir ∈ dirs w →
  email_mapper df w = (Ok email_encoded, persisted coded_dict w).
Proof.
  intros Hloop Hdir. unfold email_mapper, mbind, IO_bind, lift.
  rewrite Hloop. unfold open_w. by rewrite decide_True.
Qed.


(** A run in a world with the encodings folder succeeds, and numbers the
    identifiers in the order of their first appearance. *)
Lemma email_mapper_numbered df w :
  encodings_dir ∈ dirs w →
  ∃ email_encoded coded_dict,
    email_mapper df w = (Ok email_encoded, persisted coded_dict w) ∧
    length email_encoded = length df ∧
    numbered coded_dict (unique [] (email <$> df)) ∧
    ∀ (i : nat) x, (email <$> df) !! i = Some x →
      ∃ n : nat, unique [] (email <$> df) !! n = Some x ∧
                 email_encoded !! i = Some (Z.of_nat n + 1).
Proof.
  intros Hdir.
  destruct (encode_loop_spec (email <$> df) ∅ [] []
              (NoDup_nil_2 (A:=string)) numbered_empty)
    as (d & enc & Hloop & Hlen & Hnum & Henc).
  simpl in Hloop, Hnum, Henc.
  exists enc, d. split_and!; try done.
  - by apply email_mapper_run.
  - by rewrite Hlen, length_fmap.
Qed.

Lemma unique_app `{EqDecision A} (seen l1 l2 : list A) :
  unique seen (l1 ++ l2) = unique seen l1 ++ unique (l1 ++ seen) l2.
Proof.
  revert seen. induction l1 as [|x l1 IH]; intros seen; [done|].
  simpl. destruct (decide (x ∈ seen)) as [Hx|Hx].
  - rewrite IH. f_equal. apply unique_seen_equiv.
    intros y. rewrite elem_of_cons, !elem_of_app. naive_solver.
  - simpl. f_equal. rewrite IH. f_equal. apply unique_seen_equiv.
    intros y. rewrite !elem_of_cons, !elem_of_app, elem_of_cons. naive_solver.
Qed.

(** Two input sequences with a common beginning number the identifiers of
    that beginning alike. *)
Lemma numbered_common_prefix d1 d2 (p r1 r2 : list string) x :
  numbered d1 (unique [] (p ++ r1)) →
  numbered d2 (unique [] (p ++ r2)) →
  x ∈ p →
  ∃ n : nat, unique [] p !! n = Some x ∧
             d1 !! x = Some (Z.of_nat n + 1) ∧ d2 !! x = Some (Z.of_nat n + 1).
Proof.
  intros H1 H2 Hx.
  assert (x ∈ unique [] p) as (n & Hn)%list_elem_of_lookup.
  { rewrite elem_of_unique, elem_of_nil. naive_solver. }
  exists n. split; [done|]. split.
  - apply H1. exists n. split; [|done]. rewrite unique_app.
    by apply lookup_app_l_Some.
  - apply H2. exists n. split; [|done]. rewrite unique_app.
    by apply lookup_app_l_Some.
Qed.

End anonymizer.

(** C5.  [email_mapper] returns one id per row.  With the distinct
    identifiers listed in the order of their first appearance, the n-th of
    them (counting from 0) gets the id n + 1, at its first and at every later
    occurrence, so the ids in use are exactly 1..K for K distinct identifiers.
    The ids do not depend on the world the run starts in, and the rows
    a, b, a, c get 1, 2, 1, 3. *)
Theorem email_mapper_ids_in_first_seen_order
    (df : list mail_interaction) (w : world) :
  encodings_dir ∈ dirs w →
  let emails := email <$> df in
  let order := unique [] emails in
  ∃ email_encoded coded_dict,
    email_mapper df w = (Ok email_encoded, persisted coded_dict w) ∧
    length email_encoded = length df ∧
    NoDup order ∧
    (∀ x, x ∈ order ↔ x ∈ emails) ∧
    (∀ x k, coded_dict !! x = Some k ↔
            ∃ n : nat, order !! n = Some x ∧ k = Z.of_nat n + 1) ∧
    (∀ (i : nat) x, emails !! i = Some x →
       ∃ n : nat, order !! n = Some x ∧
                  email_encoded !! i = Some (Z.of_nat n + 1)) ∧
    (∀ k, (∃ x, coded_dict !! x = Some k) ↔
          1 <= k <= Z.of_nat (length order)) ∧
    (∀ w', encodings_dir ∈ dirs w' →
           (email_mapper df w').1 = Ok email_encoded) ∧
    (email_mapper (mail <$> ["a"; "b"; "a"; "c"]) w).1 = Ok [1; 2; 1; 3].
Proof.
  intros Hdir emails order.
  destruct (email_mapper_numbered df w Hdir) as (enc & d & Hrun & Hlen & Hnum & Henc).
  fold emails in Hnum, Henc. fold order in Hnum, Henc.
  exists enc, d. split_and!.
  - done.
  - done.
  - apply NoDup_unique.
  - intros x. unfold order. rewrite elem_of_unique, elem_of_nil. naive_solver.
  - exact Hnum.
  - exact Henc.
  - intros k. split.
    + intros (x & (n & Hn & ->)%Hnum). apply lookup_lt_Some in Hn. lia.
    + intros Hk. destruct (lookup_lt_is_Some_2 order (Z.to_nat (k - 1))) as [x Hx];
        [lia|].
      exists x. apply Hnum. exists (Z.to_nat (k - 1)). split; [done|lia].
  - intros w' Hdir'.
    destruct (email_mapper_numbered df w' Hdir')
      as (enc' & d' & Hrun' & Hlen' & Hnum' & Henc').
    rewrite Hrun'. simpl. f_equal. apply list_eq. intros i.
    destruct (emails !! i) as [x|] eqn:Hx.
    + destruct (Henc i x Hx) as (n & Hn & ->).
      destruct (Henc' i x Hx) as (n' & Hn' & ->).
      fold emails in Hn'. fold order in Hn'.
      by rewrite (NoDup_lookup order n n' x (NoDup_unique _ _) Hn Hn').
    + apply lookup_ge_None in Hx. unfold emails in Hx. rewrite length_fmap in Hx.
      rewrite !lookup_ge_None_2; [done|lia..].
  - erewrite email_mapper_run; [done| by vm_compute |done].
Qed.

(** A run on the rows a, b, a, c in a world that has the encodings folder. *)
Lemma email_mapper_ids_in_first_seen_order_witness :
  ∃ email_encoded coded_dict,
    email_mapper (mail <$> ["a"; "b"; "a"; "c"])
      {| dirs := {[encodings_dir]}; files := ∅; trace := [] |}
    = (Ok email_encoded,
       persisted coded_dict {| dirs := {[encodings_dir]}; files := ∅; trace := [] |}) ∧
    email_encoded = [1; 2; 1; 3].
Proof.
  destruct (email_mapper_ids_in_first_seen_order
              (mail <$> ["a"; "b"; "a"; "c"])
              {| dirs := {[encodings_dir]}; files := ∅; trace := [] |})
    as (enc & d & Hrun & _ & _ & _ & _ & _ & _ & _ & Hex).
  - simpl. apply elem_of_singleton. reflexivity.
  - exists enc, d. split; [exact Hrun|].
    rewrite Hrun in Hex. simpl in Hex. congruence.
Defined.

(** C8, as the code has it.  A run never reads the encodings file: it starts
    from an empty mapping and writes its own mapping over the file.  Two
    runs whose inputs begin with the same rows give every identifier of that
    common beginning the same id, whatever the encodings file held before
    either run. *)
Theorem email_mapper_ids_agree_on_common_prefix
    (p r1 r2 : list mail_interaction) (w1 w2 : world) :
  encodings_dir ∈ dirs w1 → encodings_dir ∈ dirs w2 →
  ∃ enc1 d1 enc2 d2,
    email_mapper (p ++ r1) w1 = (Ok enc1, persisted d1 w1) ∧
    email_mapper (p ++ r2) w2 = (Ok enc2, persisted d2 w2) ∧
    (∀ x, x ∈ email <$> p → is_Some (d1 !! x) ∧ d1 !! x = d2 !! x) ∧
    (∀ i : nat, (i < length p)%nat →
                is_Some (enc1 !! i) ∧ enc1 !! i = enc2 !! i).
Proof.
  intros Hdir1 Hdir2.
  destruct (email_mapper_numbered (p ++ r1) w1 Hdir1)
    as (enc1 & d1 & Hrun1 & Hlen1 & Hnum1 & Henc1).
  destruct (email_mapper_numbered (p ++ r2) w2 Hdir2)
    as (enc2 & d2 & Hrun2 & Hlen2 & Hnum2 & Henc2).
  rewrite fmap_app in Hnum1, Hnum2, Henc1, Henc2.
  exists enc1, d1, enc2, d2. split_and!; try done.
  - intros x Hx.
    destruct (numbered_common_prefix d1 d2 _ _ _ x Hnum1 Hnum2 Hx)
      as (n & _ & -> & ->). eauto.
  - intros i Hi.
    destruct (lookup_lt_is_Some_2 (email <$> p) i) as [x Hx];
      [by rewrite length_fmap|].
    destruct (Henc1 i x) as (n1 & Hn1 & ->); [by apply lookup_app_l_Some|].
    destruct (Henc2 i x) as (n2 & Hn2 & ->); [by apply lookup_app_l_Some|].
    split; [eauto|].
    assert (x ∈ email <$> p) as Hin by (apply list_elem_of_lookup; eauto).
    destruct (numbered_common_prefix d1 d2 _ _ _ x Hnum1 Hnum2 Hin)
      as (n & Hn & _ & _).
    pose proof (NoDup_unique [] ((email <$> p) ++ (email <$> r1))) as Hnd1.
    pose proof (NoDup_unique [] ((email <$> p) ++ (email <$> r2))) as Hnd2.
    rewrite unique_app in Hn1, Hn2, Hnd1, Hnd2.
    rewrite (NoDup_lookup _ n1 n x Hnd1 Hn1 (lookup_app_l_Some _ _ _ _ Hn)).
    by rewrite (NoDup_lookup _ n2 n x Hnd2 Hn2 (lookup_app_l_Some _ _ _ _ Hn)).
Qed.

(** Two runs that share their first two rows; the second starts in a world
    whose encodings file holds another mapping. *)
Lemma email_mapper_ids_agree_on_common_prefix_witness :
  let w1 := {| dirs := {[encodings_dir]}; files := ∅; trace := [] |} in
  let w2 := {| dirs := {[encodings_dir]};
               files := {[encodings_pkl := Pickle {["b" := 1; "a" := 2]}]};
               trace := [] |} in
  ∃ enc1 d1 enc2 d2,
    email_mapper (mail <$> ["a"; "b"; "c"]) w1 = (Ok enc1, persisted d1 w1) ∧
    email_mapper (mail <$> ["a"; "b"; "d"; "c"]) w2 = (Ok enc2, persisted d2 w2) ∧
    d1 !! "a" = d2 !! "a" ∧
    enc1 !! 1%nat = enc2 !! 1%nat.
Proof.
  intros w1 w2.
  destruct (email_mapper_ids_agree_on_common_prefix
              (mail <$> ["a"; "b"]) (mail <$> ["c"]) (mail <$> ["d"; "c"])
              w1 w2)
    as (enc1 & d1 & enc2 & d2 & Hrun1 & Hrun2 & Hd & Henc).
  - vm_compute. reflexivity.
  - vm_compute. reflexivity.
  - exists enc1, d1, enc2, d2. split; [exact Hrun1|]. split; [exact Hrun2|].
    split.
    + apply Hd. apply list_elem_of_here.
    + apply Henc. simpl. lia.
Defined.

(** C8, as the spec states it, fails: the run on a, b leaves the mapping
    a -> 1, b -> 2 in the encodings file; a later run on b, a in that world
    gives a the id 2. *)
Lemma email_mapper_ignores_persisted_mapping :
  let w0 := {| dirs := {[encodings_dir]}; files := ∅; trace := [] |} in
  let previous := email_mapper (mail <$> ["a"; "b"]) w0 in
  let later := email_mapper (mail <$> ["b"; "a"]) previous.2 in
  previous.1 = Ok [1; 2] ∧
  (∃ d, files previous.2 !! encodings_pkl = Some (Pickle d) ∧
        d !! "a" = Some 1) ∧
  later.1 = Ok [1; 2] ∧
  ¬ (∀ (i : nat) x k d,
       files previous.2 !! encodings_pkl = Some (Pickle d) →
       d !! x = Some k →
       ["b"; "a"] !! i = Some x →
       ∃ enc, later.1 = Ok enc ∧ enc !! i = Some k).
Proof.
  intros w0 previous later.
  assert (previous = (Ok [1; 2], persisted (list_to_map [("a", 1); ("b", 2)]) w0))
    as Hprev.
  { apply email_mapper_run; [by vm_compute|].
    simpl. apply elem_of_singleton. reflexivity. }
  assert (later = (Ok [1; 2],
                   persisted (list_to_map [("b", 1); ("a", 2)]) previous.2))
    as Hlater.
  { apply email_mapper_run; [by vm_compute|].
    rewrite Hprev. simpl. apply elem_of_singleton. reflexivity. }
  split_and!.
  - by rewrite Hprev.
  - rewrite Hprev. eexists. split; [apply lookup_insert_eq|]. by vm_compute.
  - by rewrite Hlater.
  - intros Hclaim.
    destruct (Hclaim 1%nat "a" 1 (list_to_map [("a", 1); ("b", 2)]))
      as (enc & Henc & Hi).
    + rewrite Hprev. apply lookup_insert_eq.
    + by vm_compute.
    + done.
    + rewrite Hlater in Henc. simpl in Henc. injection Henc as <-.
      discriminate Hi.
Qed.

(** ** The interaction matrix *)

Section matrix_builder.

Lemma create_user_item_matrix_tabulate df :
  create_user_item_matrix df =
  {| index := sorted_unique (user_id <$> df);
     columns := sorted_unique (article_id <$> df);
     values := map (λ u, map (λ i, presence df u i)
                             (sorted_unique (article_id <$> df)))
                   (sorted_unique (user_id <$> df)) |}.
Proof.
  unfold create_user_item_matrix, pivot_table. simpl.
  rewrite !map_map. simpl. f_equal.
  apply map_ext. intros u. rewrite map_map. done.
Qed.

Lemma sum_list_ones (group : list (interaction * Z)) :
  Forall (λ r, r.2 = 1) group → sum_list (group.*2) = len group.
Proof.
  unfold len. induction 1 as [|r group Hr _ IH]; [done|].
  rewrite fmap_cons, length_cons. unfold sum_list in *. simpl.
  rewrite IH, Hr. lia.
Qed.

Lemma presence_binary df u i : presence df u i = 0 ∨ presence df u i = 1.
Proof. unfold presence, times_1. destruct (ge_1 _); auto. Qed.

Lemma presence_1 df r : r ∈ df → presence df (user_id r) (article_id r) = 1.
Proof.
  intros Hr. unfold presence.
  set (group := filter _ _).
  assert ((r, 1) ∈ group) as Hin.
  { apply list_elem_of_filter. split; [done|].
    apply list_elem_of_fmap. eauto. }
  assert (Forall (λ r : interaction * Z, r.2 = 1) group) as Hones.
  { apply Forall_forall. intros x [_ Hx]%list_elem_of_filter.
    apply list_elem_of_fmap in Hx as (y & -> & _). done. }
  unfold agg_sum. destruct group as [|g group'] eqn:Hg.
  - by apply elem_of_nil in Hin.
  - rewrite (sum_list_ones _ Hones). simpl.
    rewrite bool_decide_eq_true_2; [done|]. unfold len. simpl. lia.
Qed.

Lemma presence_0 df u i :
  (∀ r, r ∈ df → ¬ (user_id r = u ∧ article_id r = i)) → presence df u i = 0.
Proof.
  intros Hnone. unfold presence.
  set (group := filter _ _).
  destruct group as [|g group'] eqn:Hg; [done|].
  assert (g ∈ group) as Hin by (rewrite Hg; apply list_elem_of_here).
  apply list_elem_of_filter in Hin as [Hui Hin].
  apply list_elem_of_fmap in Hin as (r & -> & Hr).
  by destruct (Hnone r Hr).
Qed.

End matrix_builder.

(** C4.  In the matrix of [create_user_item_matrix] the cell of every pair
    (user, item) of the table is 1, and the cell of a user of the table and
    an item of the table that never occur together is 0.  The rows are the
    users of the table, the columns its items, no cell is missing, and every
    entry is 0 or 1. *)
Theorem create_user_item_matrix_presence (df : list interaction) :
  let m := create_user_item_matrix df in
  (∀ r, r ∈ df → at_ m (user_id r) (article_id r) = Ok 1) ∧
  (∀ u i, u ∈ user_id <$> df → i ∈ article_id <$> df →
          (∀ r, r ∈ df → ¬ (user_id r = u ∧ article_id r = i)) →
          at_ m u i = Ok 0) ∧
  (∀ u, u ∈ index m ↔ u ∈ user_id <$> df) ∧
  (∀ i, i ∈ columns m ↔ i ∈ article_id <$> df) ∧
  length (values m) = length (index m) ∧
  Forall (λ row, length row = length (columns m) ∧
                 Forall (λ v, v = 0 ∨ v = 1) row) (values m).
Proof.
  intros m. unfold m. rewrite create_user_item_matrix_tabulate. simpl.
  split_and!.
  - intros r Hr.
    rewrite (at_tabulate (presence df)).
    + by rewrite presence_1.
    + apply elem_of_sorted_unique, list_elem_of_fmap. eauto.
    + apply elem_of_sorted_unique, list_elem_of_fmap. eauto.
  - intros u i Hu Hi Hnone.
    rewrite (at_tabulate (presence df)) by by apply elem_of_sorted_unique.
    by rewrite presence_0.
  - intros u. apply elem_of_sorted_unique.
  - intros i. apply elem_of_sorted_unique.
  - by rewrite length_map.
  - apply Forall_forall. intros row (u & -> & _)%list_elem_of_fmap.
    split; [by rewrite length_map|].
    apply Forall_forall. intros v (i & -> & _)%list_elem_of_fmap.
    apply presence_binary.
Qed.

(** ** The neighbour ranker *)

Section neighbor_ranker.




Lemma elem_of_rank_neighbors u l r :
  r ∈ rank_neighbors u l ↔ r ∈ l ∧ neighbor_id r ≠ u.
Proof.
  unfold rank_neighbors. rewrite list_elem_of_filter.
  rewrite (stable_sort_perm neighbor_before l). naive_solver.
Qed.


Lemma get_top_sorted_users_run u df m row_1 :
  loc m 1 = Ok row_1 →
  get_top_sorted_users (passed u) (passed df) (passed m)
  = Ok (rank_neighbors u (joined df m row_1)).
Proof. intros Hloc. unfold get_top_sorted_users. simpl. by rewrite Hloc. Qed.

Lemma joined_ids df m row v :
  length (index m) = length (values m) →
  v ∈ neighbor_id <$> joined df m row ↔ v ∈ index m.
Proof.
  intros Hlen.
  assert (neighbor_id <$> joined df m row
          = (merge_left (dot m row) (groupby_count user_id df)).*1.*1) as ->.
  { unfold joined. rewrite <- !list_fmap_compose. by apply list_fmap_ext. }
  rewrite merge_left_keys. unfold dot.
  rewrite fst_zip; [done|]. rewrite length_map. lia.
Qed.

(** Whoever the target is, the similarity of a line is the product of the
    neighbour's row with the row labelled 1. *)
Lemma get_top_sorted_users_similarity u df m row_1 neighbors_df r :
  loc m 1 = Ok row_1 →
  get_top_sorted_users (passed u) (passed df) (passed m) = Ok neighbors_df →
  r ∈ neighbors_df →
  (neighbor_id r, similarity r) ∈ dot m row_1.
Proof.
  intros Hloc Hrun Hr. rewrite (get_top_sorted_users_run u df m row_1 Hloc) in Hrun.
  injection Hrun as <-. apply elem_of_rank_neighbors in Hr as [Hr _].
  unfold joined in Hr. apply list_elem_of_fmap in Hr as (line & -> & Hline).
  simpl. by eapply merge_left_left.
Qed.

Lemma joined_counted df m row :
  length (index m) = length (values m) →
  (∀ v, v ∈ index m → v ∈ user_id <$> df) →
  Forall (λ r, is_Some (num_interactions r)) (joined df m row).
Proof.
  intros Hlen Hidx. apply Forall_forall. intros r Hr.
  unfold joined in Hr. apply list_elem_of_fmap in Hr as (line & -> & Hline).
  simpl. eapply merge_left_matched; [done|].
  rewrite groupby_count_keys. apply elem_of_sorted_unique.
  apply Hidx. apply (joined_ids df m row _ Hlen).
  apply list_elem_of_fmap. eexists. split; [|apply list_elem_of_fmap_2, Hline].
  done.
Qed.



End neighbor_ranker.



(** C1 fails on the code: the similarity is taken against the row of user 1
    whoever the target is.  For target 2 in a table where user 3 shares an
    item with user 2 and none with user 1, user 3 gets similarity 0, and
    user 1, who shares nothing with user 2, gets 1. *)
Theorem get_top_sorted_users_similarity_to_row_1 :
  let df := [ {| article_id := 10; title := "x"; user_id := 1 |};
              {| article_id := 20; title := "y"; user_id := 2 |};
              {| article_id := 20; title := "y"; user_id := 3 |};
              {| article_id := 30; title := "z"; user_id := 3 |} ] in
  let user_item := create_user_item_matrix df in
  get_top_sorted_users (passed 2) (passed df) (passed user_item)
  = Ok [ {| neighbor_id := 1; similarity := 1; num_interactions := Some 1 |};
         {| neighbor_id := 3; similarity := 0; num_interactions := Some 2 |} ] ∧
  (row_2 ← loc user_item 2; row_3 ← loc user_item 3; Ok (dot_rows row_3 row_2))
  = Ok 1 ∧
  (row_2 ← loc user_item 2; row_1 ← loc user_item 1; Ok (dot_rows row_1 row_2))
  = Ok 0.
Proof. vm_compute. done. Qed.

(** ** Slices *)

Lemma slice_to_length {A} (l : list A) m : 0 <= m → len (slice_to l m) <= m.
Proof.
  intros Hm. unfold slice_to, len. rewrite decide_True by done.
  rewrite length_take. lia.
Qed.

Lemma elem_of_slice_to {A} (l : list A) m x : x ∈ slice_to l m → x ∈ l.
Proof.
  unfold slice_to. case_decide; intros Hx; by eapply subseteq_take.
Qed.

Lemma is_new_user_true_iff u df :
  is_new_user u df = true ↔ u ∈ user_id <$> df.
Proof. unfold is_new_user. apply bool_decide_eq_true. Qed.

(** C10.  [user_user_recs] raises [TypeError] on every input: its first
    statement calls [get_user_articles] with one argument for two parameters.
    The other calls of its body are short of arguments as well:
    [get_top_sorted_users] gets one of three and [get_article_names] one of
    two. *)
Theorem user_user_recs_raises_TypeError
    (u : Z) (df : list interaction) (m : Z) :
  user_user_recs u df m = Raise TypeError ∧
  (∀ n, get_user_articles (passed n) missing = Raise TypeError) ∧
  get_top_sorted_users (passed u) missing missing = Raise TypeError ∧
  (∀ ids, get_article_names (passed ids) missing = Raise TypeError).
Proof. done. Qed.

(** C3 fails on the code: for a known user who has seen items the call
    raises [TypeError], so it returns no list, neither one free of the
    user's items nor one free of repetitions. *)
Theorem user_user_recs_returns_no_list :
  2 ∈ user_id <$> three_users ∧
  viewed_ids (create_user_item_matrix three_users) 2 = Ok [10; 20] ∧
  user_user_recs 2 three_users 10 = Raise TypeError.
Proof.
  split_and!; [|reflexivity..].
  apply list_elem_of_further, list_elem_of_further, list_elem_of_here.
Qed.

(** C7 fails on the code: for a known user the call raises instead of
    returning at most [m] items. *)
Theorem user_user_recs_known_user_raises :
  1 ∈ user_id <$> three_users ∧
  user_user_recs 1 three_users 3 = Raise TypeError.
Proof. split; [apply list_elem_of_here | reflexivity]. Qed.

(** ** The entry points *)

(** C2 fails on the code: [is_new_user] answers [True] for a user id that is
    in the table, so [main] sends the unknown user 4 to [user_user_recs],
    which raises, and gives the known user 1 the most viewed titles. *)
Theorem main_sends_unknown_user_to_warm_path :
  (4 ∉ user_id <$> three_users) ∧
  is_new_user 4 three_users = false ∧
  (Recommender.main ["recommender.py"; "4"; "3"] cleaned_world).1
  = Raise TypeError ∧
  get_top_articles three_users 3 = ["ten"; "twenty"; "thirty"] ∧
  is_new_user 1 three_users = true ∧
  (Recommender.main ["recommender.py"; "1"; "3"] cleaned_world).1
  = Ok (Some (Titles ["ten"; "twenty"; "thirty"])).
Proof.
  split_and!; try by vm_compute.
  intros Hin. apply (bool_decide_pack _) in Hin. by vm_compute in Hin.
Qed.

(** C9, as the code has it.  Called with a number of command-line arguments
    other than two, either entry point prints its usage text and returns:
    nothing else is printed, no file is read or written, no folder made. *)
Theorem main_wrong_argument_count_prints_usage
    (argv : list string) (w : world) :
  length argv ≠ 3%nat →
  CleanData.main argv w = (Ok (), log (Print CleanData.usage [] nl) w) ∧
  Recommender.main argv w = (Ok None, log (Print Recommender.usage [] nl) w).
Proof.
  intros Hlen.
  destruct argv as [|a0 [|a1 [|a2 [|a3 argv]]]]; simpl in Hlen; try done.
Qed.

(** Both scripts called without arguments. *)
Lemma main_wrong_argument_count_prints_usage_witness :
  let w := {| dirs := ∅; files := ∅; trace := [] |} in
  CleanData.main ["clean_data.py"] w
  = (Ok (), log (Print CleanData.usage [] nl) w) ∧
  Recommender.main ["recommender.py"] w
  = (Ok None, log (Print Recommender.usage [] nl) w).
Proof.
  intros w. split.
  - apply (main_wrong_argument_count_prints_usage ["clean_data.py"] w).
    simpl. lia.
  - apply (main_wrong_argument_count_prints_usage ["recommender.py"] w).
    simpl. lia.
Defined.

(** C9, as the spec states it, fails for an argument of the wrong type: the
    recommendation entry point called with a user id that is no integer
    raises [ValueError] and prints nothing. *)
Lemma main_wrong_argument_type_raises :
  Recommender.main ["recommender.py"; "abc"; "10"] cleaned_world
  = (Raise ValueError, cleaned_world) ∧
  Print Recommender.usage [] nl ∉ trace cleaned_world.
Proof.
  split; [by vm_compute|]. apply not_elem_of_nil.
Qed.

(** * Further properties *)

(** ** The anonymizer, continued *)

Lemma encode_loop_ok vals :
  ∃ coded_dict email_encoded,
    encode_loop vals ∅ 1 [] = Ok (coded_dict, email_encoded).
Proof.
  destruct (encode_loop_spec vals ∅ [] [] (NoDup_nil_2 (A:=string)) numbered_empty)
    as (d & enc & Hloop & _).
  simpl in Hloop. eauto.
Qed.

Lemma email_mapper_raises_without_folder df w :
  encodings_dir ∉ dirs w →
  email_mapper df w = (Raise FileNotFoundError, w).
Proof.
  intros Hdir. unfold email_mapper, mbind, IO_bind, lift.
  destruct (encode_loop_ok (email <$> df)) as (d & enc & ->).
  unfold open_w. by rewrite decide_False.
Qed.

Lemma email_mapper_ok_folder df w ids w' :
  email_mapper df w = (Ok ids, w') → encodings_dir ∈ dirs w.
Proof.
  intros Hrun. destruct (decide (encodings_dir ∈ dirs w)) as [|Hdir]; [done|].
  rewrite email_mapper_raises_without_folder in Hrun by done. discriminate Hrun.
Qed.

(** X1.  Without the folder [./email_encoding] the run raises
    [FileNotFoundError] when it opens the encodings file, whatever the rows,
    and leaves the world as it was: the ids it has computed are lost. *)
Theorem email_mapper_missing_folder (df : list mail_interaction) (w : world) :
  encodings_dir ∉ dirs w →
  email_mapper df w = (Raise FileNotFoundError, w).
Proof. apply email_mapper_raises_without_folder. Qed.

Lemma email_mapper_missing_folder_witness :
  email_mapper [mail "a"; mail "b"] {| dirs := ∅; files := ∅; trace := [] |}
  = (Raise FileNotFoundError, {| dirs := ∅; files := ∅; trace := [] |}).
Proof.
  apply (email_mapper_missing_folder [mail "a"; mail "b"]
           {| dirs := ∅; files := ∅; trace := [] |}).
  vm_compute. intros H. discriminate H.
Defined.


(** X2.  In a successful run two rows get the same id exactly when they
    carry the same identifier. *)
Theorem email_mapper_injective
    (df : list mail_interaction) (w w' : world) (ids : list Z)
    (i j : nat) (x y : string) (ki kj : Z) :
  email_mapper df w = (Ok ids, w') →
  (email <$> df) !! i = Some x → (email <$> df) !! j = Some y →
  ids !! i = Some ki → ids !! j = Some kj →
  ki = kj ↔ x = y.
Proof.
  intros Hrun Hx Hy Hki Hkj.
  pose proof (email_mapper_ok_folder _ _ _ _ Hrun) as Hdir.
  destruct (email_mapper_numbered df w Hdir) as (enc & d & Hrun' & _ & _ & Henc).
  assert (enc = ids) as -> by congruence.
  destruct (Henc i x Hx) as (n & Hn & Hi).
  destruct (Henc j y Hy) as (n' & Hn' & Hj).
  rewrite Hki in Hi. rewrite Hkj in Hj.
  injection Hi as ->. injection Hj as ->. split.
  - intros Heq. assert (n = n') as -> by lia. congruence.
  - intros ->.
    by rewrite (NoDup_lookup _ n n' y (NoDup_unique _ _) Hn Hn').
Qed.

Lemma email_mapper_injective_witness :
  (1 = 1 ↔ "a" = "a") ∧ (1 = 2 ↔ "a" = "b").
Proof.
  split.
  - apply (email_mapper_injective [mail "a"; mail "b"; mail "a"]
             {| dirs := {[encodings_dir]}; files := ∅; trace := [] |}
             (persisted (list_to_map [("a", 1); ("b", 2)])
                {| dirs := {[encodings_dir]}; files := ∅; trace := [] |})
             [1; 2; 1] 0 2 "a" "a" 1 1); reflexivity.
  - apply (email_mapper_injective [mail "a"; mail "b"; mail "a"]
             {| dirs := {[encodings_dir]}; files := ∅; trace := [] |}
             (persisted (list_to_map [("a", 1); ("b", 2)])
                {| dirs := {[encodings_dir]}; files := ∅; trace := [] |})
             [1; 2; 1] 0 1 "a" "b" 1 2); reflexivity.
Defined.

(** ** The dataset cleaner *)

Section cleaner.

Lemma bind_ok {A B} (m : IO A) (f : A → IO B) w a w' :
  m w = (Ok a, w') → (m ≫= f) w = f a w'.
Proof. intros H. unfold mbind, IO_bind. by rewrite H. Qed.

Lemma bind_raise {A B} (m : IO A) (f : A → IO B) w e w' :
  m w = (Raise e, w') → (m ≫= f) w = (Raise e, w').
Proof. intros H. unfold mbind, IO_bind. by rewrite H. Qed.

Lemma read_interactions_ok path rows w :
  files w !! path = Some (RawInteractions true rows) →
  read_interactions path w = (Ok rows, log (ReadFile path) w).
Proof.
  intros Hf. unfold read_interactions, read_csv, open_r, mbind, IO_bind.
  by rewrite Hf.
Qed.

Lemma read_articles_ok path rows w :
  files w !! path = Some (RawArticles true rows) →
  read_articles path w = (Ok rows, log (ReadFile path) w).
Proof.
  intros Hf. unfold read_articles, read_csv, open_r, mbind, IO_bind.
  by rewrite Hf.
Qed.

Lemma read_articles_missing path w :
  files w !! path = None →
  read_articles path w = (Raise FileNotFoundError, w).
Proof.
  intros Hf. unfold read_articles, read_csv, open_r, mbind, IO_bind.
  by rewrite Hf.
Qed.

Lemma astype_int_ok rows :
  Forall (λ r, is_Some (raw_article_id r)) rows →
  ∃ typed, astype_int rows = Ok typed ∧ drop_null_email typed = mail_rows rows.
Proof.
  induction 1 as [|r rows [a Ha] _ (typed & Htyped & Hdrop)].
  - by exists [].
  - exists ((to_int64 a, raw_title r, raw_email r) :: typed). split.
    + unfold astype_int in *. cbn [mapM]. rewrite Ha. cbn.
      by rewrite Htyped.
    + unfold drop_null_email, mail_rows in *. cbn [omap list_omap].
      rewrite Ha. cbn [mbind option_bind].
      destruct (raw_email r); cbn [mbind option_bind]; by rewrite Hdrop.
Qed.

Lemma astype_int_missing rows :
  ¬ Forall (λ r, is_Some (raw_article_id r)) rows →
  astype_int rows = Raise ValueError.
Proof.
  unfold astype_int. induction rows as [|r rows IH]; intros Hnot.
  - destruct Hnot. constructor.
  - cbn [mapM]. destruct (raw_article_id r) as [a|] eqn:Ha; [|done].
    cbn. rewrite IH; [done|]. intros Hall. apply Hnot. by constructor.
Qed.

Lemma elem_of_drop_duplicates {A} (key : A → Z) seen df r :
  r ∈ drop_duplicates key seen df ↔
  (key r ∉ seen) ∧ ∃ i, list_find (λ x, key x = key r) df = Some (i, r).
Proof.
  revert seen. induction df as [|r0 df IH]; intros seen.
  - simpl. rewrite elem_of_nil. naive_solver.
  - cbn [drop_duplicates list_find].
    destruct (decide (key r0 ∈ seen)) as [Hs|Hs].
    + rewrite IH. destruct (decide (key r0 = key r)) as [Heq|Hne].
      * rewrite <- Heq. naive_solver.
      * split.
        -- intros (? & i & ->). split; [done|]. by exists (S i).
        -- intros (? & i & Hi). split; [done|].
           destruct (list_find _ df) as [[j y]|]; [|done].
           simpl in Hi. injection Hi as _ ->. eauto.
    + rewrite elem_of_cons, IH, not_elem_of_cons.
      destruct (decide (key r0 = key r)) as [Heq|Hne].
      * split.
        -- intros [->|[[] _]]; [|done]. split; [done|]. by exists 0%nat.
        -- intros (_ & i & [= _ ->]). by left.
      * split.
        -- intros [->|((_ & ?) & i & ->)]; [done|]. split; [done|]. by exists (S i).
        -- intros (? & i & Hi). right. split; [done|].
           destruct (list_find _ df) as [[j y]|]; [|done].
           simpl in Hi. injection Hi as _ ->. eauto.
Qed.

Lemma NoDup_drop_duplicates {A} (key : A → Z) seen df :
  NoDup (key <$> drop_duplicates key seen df).
Proof.
  revert seen. induction df as [|r0 df IH]; intros seen; [constructor|].
  cbn [drop_duplicates]. destruct (decide (key r0 ∈ seen)); [apply IH|].
  rewrite fmap_cons. constructor; [|apply IH].
  intros (r & Hk & Hr)%list_elem_of_fmap.
  apply elem_of_drop_duplicates in Hr as [Hr _].
  apply Hr. rewrite Hk. apply list_elem_of_here.
Qed.

Lemma drop_duplicates_sublist {A} (key : A → Z) seen df :
  drop_duplicates key seen df `sublist_of` df.
Proof.
  revert seen. induction df as [|r0 df IH]; intros seen; [done|].
  cbn [drop_duplicates]. destruct (decide (key r0 ∈ seen)).
  - by apply sublist_cons.
  - by apply sublist_skip.
Qed.

End cleaner.

(** X3.  [drop_duplicates] keeps, for every item id of the item source, the
    first row with that id and no other: the kept rows are in source order,
    their ids are distinct, and no id of the source is lost. *)
Theorem drop_duplicates_keeps_first (articles_df : list article) :
  let kept := drop_duplicates doc_article_id [] articles_df in
  NoDup (doc_article_id <$> kept) ∧
  kept `sublist_of` articles_df ∧
  (∀ a, a ∈ kept ↔
        ∃ i, list_find (λ x, doc_article_id x = doc_article_id a) articles_df
             = Some (i, a)) ∧
  (∀ a, a ∈ articles_df → doc_article_id a ∈ doc_article_id <$> kept).
Proof.
  intros kept. split_and!.
  - apply NoDup_drop_duplicates.
  - apply drop_duplicates_sublist.
  - intros a. unfold kept. rewrite elem_of_drop_duplicates.
    split; [naive_solver|]. intros ?. split; [apply not_elem_of_nil|done].
  - intros a Ha.
    destruct (list_find_elem_of (λ x, doc_article_id x = doc_article_id a)
                articles_df a Ha eq_refl) as [[i a'] Hfind].
    pose proof Hfind as (_ & Hkey & _)%list_find_Some.
    apply list_elem_of_fmap. exists a'. split; [done|].
    apply elem_of_drop_duplicates. split; [apply not_elem_of_nil|].
    exists i. by rewrite Hkey.
Qed.

Lemma clean_data_run
    (user_item_path articles_path : string) (w : world)
    (rows : list raw_interaction) (articles_df : list article) :
  files w !! user_item_path = Some (RawInteractions true rows) →
  files w !! articles_path = Some (RawArticles true articles_df) →
  articles_path ≠ encodings_pkl →
  Forall (λ r, is_Some (raw_article_id r)) rows →
  encodings_dir ∈ dirs w →
  ∃ ids coded_dict,
    email_mapper (mail_rows rows) (log (ReadFile user_item_path) w)
    = (Ok ids, persisted coded_dict (log (ReadFile user_item_path) w)) ∧
    length ids = length (mail_rows rows) ∧
    clean_data user_item_path articles_path w
    = (Ok (with_user_ids (mail_rows rows) ids,
           drop_duplicates doc_article_id [] articles_df),
       log (ReadFile articles_path)
         (persisted coded_dict (log (ReadFile user_item_path) w))).
Proof.
  intros Hui Hart Hne Hids Hdir.
  destruct (astype_int_ok rows Hids) as (typed & Htyped & Hdrop).
  destruct (email_mapper_numbered (mail_rows rows)
              (log (ReadFile user_item_path) w) Hdir)
    as (ids & d & Hrun & Hlen & _).
  exists ids, d. split_and!; [done..|].
  unfold clean_data.
  erewrite bind_ok by by apply read_interactions_ok.
  erewrite bind_ok by (unfold lift; by rewrite Htyped).
  rewrite Hdrop. erewrite bind_ok by exact Hrun.
  rewrite decide_True by done.
  erewrite bind_ok; [done|].
  apply read_articles_ok. simpl. by rewrite lookup_insert_ne.
Qed.

(** X4.  With both sources in place, a finite item id within the 64-bit
    range in every row of the interaction source and the encodings folder
    present, [clean_data] returns: the clean table holds the rows that carry
    a user identifier, in source order, each with the integer part of its
    item id, its title and the id [email_mapper] gives it, and the item
    table without its later duplicates.  It reads the two sources and writes
    the encodings file, nothing else. *)
Theorem clean_data_returns
    (user_item_path articles_path : string) (w : world)
    (rows : list raw_interaction) (articles_df : list article) :
  files w !! user_item_path = Some (RawInteractions true rows) →
  files w !! articles_path = Some (RawArticles true articles_df) →
  articles_path ≠ encodings_pkl →
  Forall (λ r, ∃ q, raw_article_id r = Some q ∧
                    - 2 ^ 63 <= truncate q < 2 ^ 63) rows →
  encodings_dir ∈ dirs w →
  ∃ ids coded_dict,
    email_mapper (mail_rows rows) (log (ReadFile user_item_path) w)
    = (Ok ids, persisted coded_dict (log (ReadFile user_item_path) w)) ∧
    length ids = length (mail_rows rows) ∧
    clean_data user_item_path articles_path w
    = (Ok (with_user_ids (mail_rows rows) ids,
           drop_duplicates doc_article_id [] articles_df),
       log (ReadFile articles_path)
         (persisted coded_dict (log (ReadFile user_item_path) w))) ∧
    Forall2 (λ raw r, ∃ q, raw_article_id raw = Some q ∧
                           mail_article_id r = truncate q ∧
                           mail_title r = raw_title raw ∧
                           raw_email raw = Some (email r))
            (filter (λ raw, is_Some (raw_email raw)) rows) (mail_rows rows).
Proof.
  intros Hui Hart Hne Hids Hdir.
  assert (Forall (λ r, is_Some (raw_article_id r)) rows) as Hsome.
  { eapply Forall_impl; [exact Hids|]. intros r (q & -> & _). by eexists. }
  destruct (clean_data_run user_item_path articles_path w rows articles_df
              Hui Hart Hne Hsome Hdir) as (ids & d & Hmap & Hlen & Hrun).
  exists ids, d. split_and!; [done..|].
  clear -Hids. induction Hids as [|r rows (q & Hq & Hrange) _ IH].
  - constructor.
  - rewrite filter_cons. unfold mail_rows in *. cbn [omap list_omap].
    rewrite Hq. cbn [mbind option_bind].
    destruct (raw_email r) as [e|] eqn:He; cbn [mbind option_bind].
    + rewrite decide_True by by eexists. constructor; [|done].
      exists q. unfold to_int64. rewrite decide_True by done. done.
    + rewrite decide_False by (by intros [? ?]). done.
Qed.

(** X5.  A row of the interaction source without an item id makes
    [clean_data] raise [ValueError] right after the source is read, before
    any id is assigned or any file written, also when that row carries no
    user identifier and would have been dropped. *)
Theorem clean_data_missing_item_id
    (user_item_path articles_path : string) (w : world)
    (rows : list raw_interaction) :
  files w !! user_item_path = Some (RawInteractions true rows) →
  ¬ Forall (λ r, is_Some (raw_article_id r)) rows →
  clean_data user_item_path articles_path w
  = (Raise ValueError, log (ReadFile user_item_path) w).
Proof.
  intros Hui Hids. unfold clean_data.
  erewrite bind_ok by by apply read_interactions_ok.
  erewrite bind_raise; [done|].
  unfold lift. by rewrite astype_int_missing.
Qed.

(** X6.  When the item source is missing, [clean_data] raises
    [FileNotFoundError] only after the anonymizer has run: the encodings
    file has already been overwritten with the new mapping. *)
Theorem clean_data_missing_articles_after_encodings
    (user_item_path articles_path : string) (w : world)
    (rows : list raw_interaction) :
  files w !! user_item_path = Some (RawInteractions true rows) →
  files w !! articles_path = None →
  articles_path ≠ encodings_pkl →
  Forall (λ r, is_Some (raw_article_id r)) rows →
  encodings_dir ∈ dirs w →
  ∃ coded_dict w',
    clean_data user_item_path articles_path w = (Raise FileNotFoundError, w') ∧
    files w' !! encodings_pkl = Some (Pickle coded_dict) ∧
    (∀ r, r ∈ mail_rows rows → is_Some (coded_dict !! email r)).
Proof.
  intros Hui Hart Hne Hids Hdir.
  destruct (astype_int_ok rows Hids) as (typed & Htyped & Hdrop).
  destruct (email_mapper_numbered (mail_rows rows)
              (log (ReadFile user_item_path) w) Hdir)
    as (ids & d & Hrun & Hlen & Hnum & Henc).
  exists d, (persisted d (log (ReadFile user_item_path) w)). split_and!.
  - unfold clean_data.
    erewrite bind_ok by by apply read_interactions_ok.
    erewrite bind_ok by (unfold lift; by rewrite Htyped).
    rewrite Hdrop. erewrite bind_ok by exact Hrun.
    rewrite decide_True by done.
    erewrite bind_raise; [done|].
    apply read_articles_missing. simpl. by rewrite lookup_insert_ne.
  - simpl. apply lookup_insert_eq.
  - intros r Hr.
    assert (email r ∈ unique [] (email <$> mail_rows rows))
      as (n & Hn)%list_elem_of_lookup.
    { rewrite elem_of_unique, elem_of_nil.
      split; [by apply list_elem_of_fmap_2|tauto]. }
    exists (Z.of_nat n + 1). apply Hnum. eauto.
Qed.

Lemma clean_data_returns_witness :
  ∃ ids w',
    clean_data "interactions.csv" "articles.csv" raw_world
    = (Ok (with_user_ids
             [ {| mail_article_id := 10; mail_title := "ten"; email := "a" |};
               {| mail_article_id := 20; mail_title := "twenty"; email := "b" |} ]
             ids,
           [ {| doc_article_id := 10; doc_fields := ["ten"] |};
             {| doc_article_id := 20; doc_fields := ["twenty"] |} ]),
       w').
Proof.
  destruct (clean_data_returns "interactions.csv" "articles.csv" raw_world
              [ {| raw_article_id := Some (inject_Z 10); raw_title := "ten";
                   raw_email := Some "a" |};
                {| raw_article_id := Some (inject_Z 20); raw_title := "twenty";
                   raw_email := None |};
                {| raw_article_id := Some (inject_Z 20); raw_title := "twenty";
                   raw_email := Some "b" |} ]
              [ {| doc_article_id := 10; doc_fields := ["ten"] |};
                {| doc_article_id := 20; doc_fields := ["twenty"] |};
                {| doc_article_id := 10; doc_fields := ["ten again"] |} ])
    as (ids & d & _ & _ & Hrun & _).
  - vm_compute. reflexivity.
  - vm_compute. reflexivity.
  - discriminate.
  - repeat (apply Forall_cons_2;
              [eexists; split; [reflexivity|vm_compute; split; [discriminate|reflexivity]]|]).
    apply Forall_nil_2.
  - vm_compute. reflexivity.
  - exists ids. eexists. exact Hrun.
Defined.

Lemma clean_data_missing_item_id_witness :
  clean_data "interactions.csv" "articles.csv"
    {| dirs := {[encodings_dir]};
       files := {[ "interactions.csv" :=
                     RawInteractions true
                       [ {| raw_article_id := None; raw_title := "ten";
                            raw_email := None |} ] ]};
       trace := [] |}
  = (Raise ValueError,
     log (ReadFile "interactions.csv")
       {| dirs := {[encodings_dir]};
          files := {[ "interactions.csv" :=
                        RawInteractions true
                          [ {| raw_article_id := None; raw_title := "ten";
                               raw_email := None |} ] ]};
          trace := [] |}).
Proof.
  apply (clean_data_missing_item_id "interactions.csv" "articles.csv" _
           [ {| raw_article_id := None; raw_title := "ten"; raw_email := None |} ]).
  - vm_compute. reflexivity.
  - intros Hall. apply Forall_cons in Hall as [[a Ha] _]. discriminate Ha.
Defined.

Lemma clean_data_missing_articles_after_encodings_witness :
  ∃ coded_dict w',
    clean_data "interactions.csv" "no-such-file.csv" raw_world
    = (Raise FileNotFoundError, w') ∧
    files w' !! encodings_pkl = Some (Pickle coded_dict).
Proof.
  destruct (clean_data_missing_articles_after_encodings
              "interactions.csv" "no-such-file.csv" raw_world
              [ {| raw_article_id := Some (inject_Z 10); raw_title := "ten";
                   raw_email := Some "a" |};
                {| raw_article_id := Some (inject_Z 20); raw_title := "twenty";
                   raw_email := None |};
                {| raw_article_id := Some (inject_Z 20); raw_title := "twenty";
                   raw_email := Some "b" |} ])
    as (d & w' & Hrun & Hfile & _).
  - vm_compute. reflexivity.
  - vm_compute. reflexivity.
  - discriminate.
  - repeat constructor; eexists; reflexivity.
  - vm_compute. reflexivity.
  - exists d, w'. split; [exact Hrun | exact Hfile].
Defined.

(** ** Saving and loading *)

Section persistence.

Lemma save_data_known df dataset_type path w :
  (dataset_type, path) ∈ [("user-item", clean_user_item);
                          ("item", clean_item);
                          ("user-item-matrix", clean_matrix)] →
  save_data df dataset_type w = (Ok (), saved path (to_csv df) w).
Proof.
  intros Hin. unfold save_data, saved, ensure_output, path_exists, mbind, IO_bind.
  assert (∀ w0 : world, output_dir ∈ dirs (ensure_output w0)) as Hdir.
  { intros w0. unfold ensure_output. case_bool_decide; [done|]. simpl.
    set_solver. }
  repeat (apply elem_of_cons in Hin as [[= -> ->]|Hin]);
    [| | |by apply elem_of_nil in Hin].
  all: case_bool_decide as Hd; simpl.
  all: unfold open_w; simpl.
  all: try (rewrite decide_True by done; done).
  all: rewrite decide_True by set_solver; done.
Qed.

Lemma ensure_output_files w : files (ensure_output w) = files w.
Proof. unfold ensure_output. by case_bool_decide. Qed.

Lemma files_saved path f w : files (saved path f w) = <[path := f]> (files w).
Proof. unfold saved. simpl. by rewrite ensure_output_files. Qed.

Lemma files_log e w : files (log e w) = files w.
Proof. done. Qed.

Lemma read_csv_ok path f w :
  files w !! path = Some f → (∀ d, f ≠ Pickle d) →
  read_csv path w = (Ok f, log (ReadFile path) w).
Proof.
  intros Hf Hnp. unfold read_csv, open_r, mbind, IO_bind. rewrite Hf.
  destruct f; try done. by destruct (Hnp d).
Qed.

Lemma read_csv_missing path w :
  files w !! path = None → read_csv path w = (Raise FileNotFoundError, w).
Proof. intros Hf. unfold read_csv, open_r, mbind, IO_bind. by rewrite Hf. Qed.

Lemma load_data_ok w f1 f2 f3 :
  files w !! clean_user_item = Some f1 → (∀ d, f1 ≠ Pickle d) →
  files w !! clean_item = Some f2 → (∀ d, f2 ≠ Pickle d) →
  files w !! clean_matrix = Some f3 → (∀ d, f3 ≠ Pickle d) →
  load_data w
  = (Ok (f1, f2, f3),
     log (ReadFile clean_matrix)
       (log (ReadFile clean_item) (log (ReadFile clean_user_item) w))).
Proof.
  intros H1 Hn1 H2 Hn2 H3 Hn3. unfold load_data.
  erewrite bind_ok by by apply read_csv_ok.
  erewrite bind_ok by by apply read_csv_ok.
  erewrite bind_ok by by apply read_csv_ok.
  done.
Qed.

End persistence.

(** X7.  [save_data] never raises: it makes the output folder when it is
    missing, then writes the frame to the file of its dataset type.  For
    any other dataset type it writes no file (the folder is still made). *)
Theorem save_data_writes (df : dataset) (dataset_type : string) (w : world) :
  ∃ w',
    save_data df dataset_type w = (Ok (), w') ∧
    output_dir ∈ dirs w' ∧
    (∀ path, (dataset_type, path) ∈ [("user-item", clean_user_item);
                                     ("item", clean_item);
                                     ("user-item-matrix", clean_matrix)] →
             files w' = <[path := to_csv df]> (files w)) ∧
    (dataset_type ∉ ["user-item"; "item"; "user-item-matrix"] →
     files w' = files w).
Proof.
  assert (output_dir ∈ dirs (ensure_output w)) as Hdir.
  { unfold ensure_output. case_bool_decide; [done|]. simpl. set_solver. }
  destruct (decide (dataset_type ∈ ["user-item"; "item"; "user-item-matrix"]))
    as [Hin|Hout].
  - assert (∃ path, (dataset_type, path) ∈
                      [("user-item", clean_user_item); ("item", clean_item);
                       ("user-item-matrix", clean_matrix)]) as [path Hpath].
    { repeat (apply elem_of_cons in Hin as [->|Hin]);
        [eexists; apply list_elem_of_here
        |eexists; apply list_elem_of_further, list_elem_of_here
        |eexists; do 2 apply list_elem_of_further; apply list_elem_of_here
        |by apply elem_of_nil in Hin]. }
    exists (saved path (to_csv df) w). split_and!.
    + by apply save_data_known.
    + done.
    + intros path' Hpath'. rewrite files_saved.
      repeat (apply elem_of_cons in Hpath as [[= -> ->]|Hpath]);
        try (by apply elem_of_nil in Hpath);
        repeat (apply elem_of_cons in Hpath' as [[= <-]|Hpath']);
        try done; by apply elem_of_nil in Hpath'.
    + done.
  - exists (log (Print ("Error in save_data() function: dataset_type incorrect."
                        +:+ nl +:+ "Function expects" +:+
                        "dataset_type to be either 'user-item', 'item' or 'user-item-matrix'.")
                   [] nl) (ensure_output w)).
    split_and!.
    + unfold save_data, ensure_output, path_exists, mbind, IO_bind.
      rewrite !not_elem_of_cons in Hout. destruct Hout as (H1 & H2 & H3 & _).
      case_bool_decide; simpl; by rewrite !decide_False by done.
    + done.
    + intros path Hpath. destruct Hout.
      repeat (apply elem_of_cons in Hpath as [[= -> ->]|Hpath]);
        [set_solver..|by apply elem_of_nil in Hpath].
    + intros _. simpl. apply ensure_output_files.
Qed.

(** ** The recommendation entry point *)

Section recommend.

Lemma print_lines_ok lines w :
  ∃ w', print_lines lines w = (Ok (), w') ∧ files w' = files w.
Proof.
  revert w. induction lines as [|[idx reco] lines IH]; intros w.
  - by exists w.
  - cbn [print_lines]. erewrite bind_ok by reflexivity.
    destruct (IH (log (Print "{}. {}" [SInt (idx + 1); reco] nl) w))
      as (w' & -> & Hf).
    eauto.
Qed.

End recommend.

(** X9.  With the three artifacts in place and two arguments that read as
    64-bit integers, [main] takes the branch [is_new_user] selects: for a
    user id of the clean table it returns what [get_top_articles] returns
    for the count (the table having no two equally viewed items); for any
    other user id it calls [user_user_recs] and ends in [TypeError], after
    reading the artifacts and before printing anything. *)
Theorem main_branches
    (prog a b : string) (u n : Z) (w : world)
    (df : list interaction) (f2 f3 : file) :
  int a = Ok u → int b = Ok n →
  (String.length a <= 4300)%nat → (String.length b <= 4300)%nat →
  - 2 ^ 63 <= u < 2 ^ 63 → - 2 ^ 63 <= n < 2 ^ 63 →
  files w !! clean_user_item = Some (CleanInteractions df) →
  files w !! clean_item = Some f2 → (∀ d, f2 ≠ Pickle d) →
  files w !! clean_matrix = Some f3 → (∀ d, f3 ≠ Pickle d) →
  (u ∈ user_id <$> df →
   NoDup (groupby_count article_id df).*2 →
   (Recommender.main [prog; a; b] w).1
   = Ok (Some (Titles (get_top_articles df n)))) ∧
  (u ∉ user_id <$> df →
   Recommender.main [prog; a; b] w
   = (Raise TypeError,
      log (ReadFile clean_matrix)
        (log (ReadFile clean_item) (log (ReadFile clean_user_item) w)))).
Proof.
  intros Ha Hb _ _ _ _ H1 H2 Hn2 H3 Hn3.
  split; [intros Hu _|intros Hu].
  - unfold Recommender.main.
    erewrite bind_ok by (unfold lift; by rewrite Ha).
    erewrite bind_ok by (unfold lift; by rewrite Hb).
    erewrite bind_ok by by apply load_data_ok.
    lazy beta iota.
    erewrite bind_ok by reflexivity.
    apply is_new_user_true_iff in Hu. rewrite Hu.
    erewrite bind_ok by reflexivity.
    erewrite bind_ok by reflexivity.
    destruct (print_lines_ok
                (enumerate (Titles (get_top_articles df n)))
                (log (Print "Top {} recommendations for user {}:"
                        [SInt n; SInt u] nl)
                   (log (ReadFile clean_matrix)
                      (log (ReadFile clean_item)
                         (log (ReadFile clean_user_item) w)))))
      as (w' & Hlines & _).
    erewrite bind_ok by exact Hlines. done.
  - unfold Recommender.main.
    erewrite bind_ok by (unfold lift; by rewrite Ha).
    erewrite bind_ok by (unfold lift; by rewrite Hb).
    erewrite bind_ok by by apply load_data_ok.
    lazy beta iota.
    erewrite bind_ok by reflexivity.
    assert (is_new_user u df = false) as ->.
    { apply not_true_is_false. by rewrite is_new_user_true_iff. }
    done.
Qed.

Lemma main_branches_witness :
  (Recommender.main ["recommender.py"; "2"; "2"] cleaned_world).1
  = Ok (Some (Titles (get_top_articles three_users 2))) ∧
  (Recommender.main ["recommender.py"; "7"; "2"] cleaned_world).1
  = Raise TypeError.
Proof.
  split.
  - apply (main_branches "recommender.py" "2" "2" 2 2 cleaned_world three_users
             (to_csv (Item []))
             (to_csv (UserItemMatrix (create_user_item_matrix three_users))));
      try reflexivity; try discriminate;
      try (simpl; lia); try (vm_compute; split; [discriminate|reflexivity]).
    + apply (bool_decide_unpack _). vm_compute. exact I.
    + apply (bool_decide_unpack _). vm_compute. exact I.
  - rewrite (proj2 (main_branches "recommender.py" "7" "2" 7 2 cleaned_world
                      three_users (to_csv (Item []))
                      (to_csv (UserItemMatrix (create_user_item_matrix three_users)))
                      eq_refl eq_refl
                      ltac:(simpl; lia) ltac:(simpl; lia)
                      ltac:(vm_compute; split; [discriminate|reflexivity])
                      ltac:(vm_compute; split; [discriminate|reflexivity])
                      eq_refl eq_refl
                      ltac:(discriminate) eq_refl ltac:(discriminate))).
    + reflexivity.
    + intros Hin. apply (bool_decide_pack _) in Hin. vm_compute in Hin.
      exact Hin.
Defined.

(** X10.  When an artifact of the cleaning stage is missing (and none of
    the three paths holds a pickle), [main] raises [FileNotFoundError],
    changes no file and prints nothing, also when the missing one is the
    item table or the matrix, which it never uses. *)
Theorem main_missing_artifact
    (prog a b : string) (u n : Z) (w : world) :
  int a = Ok u → int b = Ok n →
  (String.length a <= 4300)%nat → (String.length b <= 4300)%nat →
  (∀ d, files w !! clean_user_item ≠ Some (Pickle d)) →
  (∀ d, files w !! clean_item ≠ Some (Pickle d)) →
  (∀ d, files w !! clean_matrix ≠ Some (Pickle d)) →
  files w !! clean_user_item = None ∨ files w !! clean_item = None ∨
  files w !! clean_matrix = None →
  ∃ w',
    Recommender.main [prog; a; b] w = (Raise FileNotFoundError, w') ∧
    files w' = files w ∧
    ∀ fmt args e, Print fmt args e ∈ trace w' → Print fmt args e ∈ trace w.
Proof.
  intros Ha Hb _ _ Hnp1 Hnp2 Hnp3 Hmiss.
  assert (∀ path w0, files w0 = files w →
            (∀ d, files w !! path ≠ Some (Pickle d)) →
            read_csv path w0 = (Raise FileNotFoundError, w0) ∨
            ∃ f, read_csv path w0 = (Ok f, log (ReadFile path) w0) ∧
                 files w0 !! path = Some f) as Hread.
  { intros path w0 Hw0 Hnp. destruct (files w0 !! path) as [f|] eqn:Hf.
    - right. exists f. split; [|done]. apply read_csv_ok; [done|].
      intros d ->. rewrite Hw0 in Hf. by destruct (Hnp d).
    - left. by apply read_csv_missing. }
  assert (∀ w0 fmt args e, files w0 = files w →
            (Print fmt args e ∈ trace w0 → Print fmt args e ∈ trace w) →
            ∀ path, Print fmt args e ∈ trace (log (ReadFile path) w0) →
                    Print fmt args e ∈ trace w) as Hlog.
  { intros w0 fmt args e _ Hw0 path [Hin|Hin]%elem_of_app; [by apply Hw0|].
    apply list_elem_of_singleton in Hin. discriminate Hin. }
  unfold Recommender.main.
  erewrite bind_ok by (unfold lift; by rewrite Ha).
  erewrite bind_ok by (unfold lift; by rewrite Hb).
  unfold load_data.
  destruct (Hread clean_user_item w eq_refl Hnp1) as [Hr1|(f1 & Hr1 & Hf1)].
  { exists w. split_and!; [|done..].
    erewrite bind_raise; [done|]. by erewrite bind_raise. }
  destruct (Hread clean_item (log (ReadFile clean_user_item) w) eq_refl Hnp2)
    as [Hr2|(f2 & Hr2 & Hf2)].
  { eexists. split_and!.
    - erewrite bind_raise; [done|]. erewrite bind_ok by exact Hr1.
      by erewrite bind_raise.
    - done.
    - intros fmt args e. by apply Hlog. }
  destruct (Hread clean_matrix
              (log (ReadFile clean_item) (log (ReadFile clean_user_item) w))
              eq_refl Hnp3) as [Hr3|(f3 & Hr3 & Hf3)].
  { eexists. split_and!.
    - erewrite bind_raise; [done|]. erewrite bind_ok by exact Hr1.
      erewrite bind_ok by exact Hr2. by erewrite bind_raise.
    - done.
    - intros fmt args e Hin.
      eapply (Hlog (log (ReadFile clean_user_item) w)); [done| |exact Hin].
      by apply Hlog. }
  cbn [files log] in Hf2, Hf3.
  destruct Hmiss as [Hm|[Hm|Hm]]; congruence.
Qed.

(** The matrix file is missing, the encodings file and the two tables are
    there: [main] fails after reading the two tables. *)
Lemma main_missing_artifact_witness :
  ∃ w',
    Recommender.main ["recommender.py"; "1"; "3"] world_without_matrix
    = (Raise FileNotFoundError, w') ∧
    trace w' = [ReadFile clean_user_item; ReadFile clean_item].
Proof.
  destruct (main_missing_artifact "recommender.py" "1" "3" 1 3
              world_without_matrix)
    as (w' & Hrun & _).
  - reflexivity.
  - reflexivity.
  - simpl. lia.
  - simpl. lia.
  - intros d. vm_compute. discriminate.
  - intros d. vm_compute. discriminate.
  - intros d. vm_compute. discriminate.
  - right. right. vm_compute. reflexivity.
  - exists w'. split; [exact Hrun|].
    vm_compute in Hrun. injection Hrun as <-. reflexivity.
Defined.

(** ** The matrix, continued *)

Section matrix_facts.

Lemma insert_unique_sorted x l :
  StronglySorted Z.lt l → StronglySorted Z.lt (insert_unique x l).
Proof.
  induction 1 as [|y l Hl IH Hy]; simpl.
  - repeat constructor.
  - repeat case_decide.
    + constructor; [by constructor|]. constructor; [done|].
      eapply Forall_impl; [exact Hy|]. simpl. lia.
    + by constructor.
    + constructor; [done|]. apply Forall_forall.
      intros z [->|Hz]%elem_of_insert_unique; [lia|].
      by eapply Forall_forall in Hy.
Qed.

Lemma sorted_unique_sorted l : StronglySorted Z.lt (sorted_unique l).
Proof.
  induction l as [|x l IH]; [constructor|].
  unfold sorted_unique in *. simpl. by apply insert_unique_sorted.
Qed.

Lemma sorted_lt_ext (l1 l2 : list Z) :
  StronglySorted Z.lt l1 → StronglySorted Z.lt l2 →
  (∀ x, x ∈ l1 ↔ x ∈ l2) → l1 = l2.
Proof.
  intros H1. revert l2. induction H1 as [|x l1 Hl1 IH Hx]; intros l2 H2 Hext.
  - destruct l2 as [|y l2]; [done|].
    pose proof (proj2 (Hext y) (list_elem_of_here _ _)) as Hy.
    by apply elem_of_nil in Hy.
  - destruct H2 as [|y l2 Hl2 Hy].
    { pose proof (proj1 (Hext x) (list_elem_of_here _ _)) as Hx'.
      by apply elem_of_nil in Hx'. }
    assert (x = y) as ->.
    { pose proof (proj1 (Hext x) (list_elem_of_here _ _)) as Hxin.
      pose proof (proj2 (Hext y) (list_elem_of_here _ _)) as Hyin.
      apply elem_of_cons in Hxin as [|Hxin]; [done|].
      apply elem_of_cons in Hyin as [|Hyin]; [done|].
      eapply Forall_forall in Hxin; [|exact Hy].
      eapply Forall_forall in Hyin; [|exact Hx]. simpl in *. lia. }
    f_equal. apply IH; [done|]. intros z. split; intros Hz.
    + pose proof (proj1 (Hext z) (list_elem_of_further _ _ _ Hz)) as Hz'.
      apply elem_of_cons in Hz' as [->|]; [|done].
      eapply Forall_forall in Hz; [|exact Hx]. simpl in Hz. lia.
    + pose proof (proj2 (Hext z) (list_elem_of_further _ _ _ Hz)) as Hz'.
      apply elem_of_cons in Hz' as [->|]; [|done].
      eapply Forall_forall in Hz; [|exact Hy]. simpl in Hz. lia.
Qed.

Lemma sorted_unique_ext l1 l2 :
  (∀ x, x ∈ l1 ↔ x ∈ l2) → sorted_unique l1 = sorted_unique l2.
Proof.
  intros Hext. apply sorted_lt_ext; [apply sorted_unique_sorted..|].
  intros x. by rewrite !elem_of_sorted_unique.
Qed.

Lemma presence_1_iff df u i : presence df u i = 1 ↔ interacted df u i.
Proof.
  split.
  - intros Hp. destruct (decide (Exists (λ r, user_id r = u ∧ article_id r = i) df))
      as [Hex|Hnex].
    + apply Exists_exists in Hex as (r & Hr & Hu & Hi). by exists r.
    + rewrite presence_0 in Hp; [done|].
      intros r Hr Hui. apply Hnex, Exists_exists. eauto.
  - intros (r & Hr & <- & <-). by apply presence_1.
Qed.

Lemma presence_ext df1 df2 u i :
  (interacted df1 u i ↔ interacted df2 u i) →
  presence df1 u i = presence df2 u i.
Proof.
  intros Hext.
  destruct (presence_binary df1 u i) as [H1|H1],
           (presence_binary df2 u i) as [H2|H2]; try congruence.
  - apply presence_1_iff, Hext, presence_1_iff in H2. congruence.
  - apply presence_1_iff, Hext, presence_1_iff in H1. congruence.
Qed.

Lemma loc_missing m u : u ∉ index m → loc m u = Raise KeyError.
Proof.
  intros Hu. unfold loc, get_loc.
  destruct (list_find _ _) as [[i y]|] eqn:Hfind; [|done].
  apply list_find_Some in Hfind as (Hi & -> & _).
  destruct Hu. apply list_elem_of_lookup. eauto.
Qed.

Lemma labels_equal_1_tabulate (f : Z → Z) cols :
  labels_equal_1 cols (map f cols) = filter (λ i, f i = 1) cols.
Proof.
  unfold labels_equal_1. induction cols as [|c cols IH]; [done|].
  cbn [map zip zip_with]. rewrite !filter_cons. simpl.
  case_decide; [rewrite fmap_cons|]; by rewrite <- IH.
Qed.

End matrix_facts.

(** X11.  The matrix depends only on which (user, item) pairs occur in the
    table, not on how often or in what order; its row labels and its column
    labels are strictly ascending. *)
Theorem create_user_item_matrix_of_pairs (df1 df2 : list interaction) :
  (∀ u i, interacted df1 u i ↔ interacted df2 u i) →
  create_user_item_matrix df1 = create_user_item_matrix df2 ∧
  StronglySorted Z.lt (index (create_user_item_matrix df1)) ∧
  StronglySorted Z.lt (columns (create_user_item_matrix df1)).
Proof.
  intros Hext. rewrite !create_user_item_matrix_tabulate. simpl.
  assert (sorted_unique (user_id <$> df1) = sorted_unique (user_id <$> df2))
    as Husers.
  { apply sorted_unique_ext. intros u. rewrite !list_elem_of_fmap. split.
    - intros (r & -> & Hr).
      destruct (proj1 (Hext (user_id r) (article_id r))) as (r' & ? & ? & ?);
        [by exists r|]. by exists r'.
    - intros (r & -> & Hr).
      destruct (proj2 (Hext (user_id r) (article_id r))) as (r' & ? & ? & ?);
        [by exists r|]. by exists r'. }
  assert (sorted_unique (article_id <$> df1) = sorted_unique (article_id <$> df2))
    as Hitems.
  { apply sorted_unique_ext. intros u. rewrite !list_elem_of_fmap. split.
    - intros (r & -> & Hr).
      destruct (proj1 (Hext (user_id r) (article_id r))) as (r' & ? & ? & ?);
        [by exists r|]. by exists r'.
    - intros (r & -> & Hr).
      destruct (proj2 (Hext (user_id r) (article_id r))) as (r' & ? & ? & ?);
        [by exists r|]. by exists r'. }
  split_and!; [|apply sorted_unique_sorted..].
  rewrite Husers, Hitems. f_equal.
  apply map_ext. intros u. apply map_ext. intros i. by apply presence_ext.
Qed.

Lemma create_user_item_matrix_of_pairs_witness :
  create_user_item_matrix
    [ {| article_id := 10; title := "ten"; user_id := 1 |};
      {| article_id := 20; title := "twenty"; user_id := 2 |};
      {| article_id := 10; title := "ten"; user_id := 1 |} ]
  = create_user_item_matrix
      [ {| article_id := 20; title := "twenty"; user_id := 2 |};
        {| article_id := 10; title := "ten"; user_id := 1 |} ].
Proof.
  apply (create_user_item_matrix_of_pairs
           [ {| article_id := 10; title := "ten"; user_id := 1 |};
             {| article_id := 20; title := "twenty"; user_id := 2 |};
             {| article_id := 10; title := "ten"; user_id := 1 |} ]
           [ {| article_id := 20; title := "twenty"; user_id := 2 |};
             {| article_id := 10; title := "ten"; user_id := 1 |} ]).
  intros u i. unfold interacted. split; intros (r & Hr & Hu & Hi); exists r;
    (split; [|done]); revert Hr; rewrite !elem_of_cons, !elem_of_nil; tauto.
Defined.

(** X12.  On the matrix of a table, the items read off the row of a user of
    the table are exactly the items the user has a row for, each once, in
    ascending order; for a user id that is not in the table the lookup
    raises [KeyError]. *)
Theorem viewed_ids_of_table (df : list interaction) (u : Z) :
  (u ∈ user_id <$> df →
   ∃ article_ids,
     viewed_ids (create_user_item_matrix df) u = Ok article_ids ∧
     StronglySorted Z.lt article_ids ∧
     ∀ i, i ∈ article_ids ↔ interacted df u i) ∧
  (u ∉ user_id <$> df →
   viewed_ids (create_user_item_matrix df) u = Raise KeyError).
Proof.
  rewrite create_user_item_matrix_tabulate. split; intros Hu.
  - exists (filter (λ i, presence df u i = 1) (sorted_unique (article_id <$> df))).
    split_and!.
    + unfold viewed_ids.
      rewrite (loc_tabulate (presence df)) by by apply elem_of_sorted_unique.
      simpl. by rewrite (labels_equal_1_tabulate (presence df u)).
    + apply StronglySorted_filter, sorted_unique_sorted.
    + intros i. rewrite list_elem_of_filter, presence_1_iff, elem_of_sorted_unique.
      split; [tauto|]. intros Hi. split; [done|].
      destruct Hi as (r & Hr & _ & <-). by apply list_elem_of_fmap_2.
  - unfold viewed_ids. rewrite loc_missing; [done|].
    simpl. by rewrite elem_of_sorted_unique.
Qed.

(** X13.  [get_user_articles] never returns.  Called with both arguments
    for a user of the matrix it reads the user's items and then raises
    [TypeError], because it calls [get_article_names] with one argument; for
    another user it raises the [KeyError] of the lookup. *)
Theorem get_user_articles_never_returns
    (user_id : arg Z) (user_item : arg matrix) :
  is_ok (get_user_articles user_id user_item) = false ∧
  ∀ u m, user_id = passed u → user_item = passed m →
    get_user_articles user_id user_item
    = match viewed_ids m u with
      | Ok _ => Raise TypeError
      | Raise e => Raise e
      end.
Proof.
  split.
  - destruct user_id as [u|], user_item as [m|]; try done.
    unfold get_user_articles. simpl. by destruct (viewed_ids m u).
  - intros u m -> ->. unfold get_user_articles. simpl.
    by destruct (viewed_ids m u).
Qed.

(** ** Titles and popularity *)

Section titles.

Lemma presence_of_interacted df u i : presence_of df u i ↔ interacted df u i.
Proof. unfold presence_of, interacted. rewrite Exists_exists. naive_solver. Qed.

Lemma StronglySorted_weaken {A} (R1 R2 : relation A) l :
  (∀ x y, R1 x y → R2 x y) → StronglySorted R1 l → StronglySorted R2 l.
Proof.
  intros Himpl. induction 1 as [|x l Hl IH Hx]; constructor; [done|].
  eapply Forall_impl; [exact Hx|]. apply Himpl.
Qed.

Lemma sort_by_count_perm views : sort_by_count views ≡ₚ views.
Proof. apply stable_sort_perm. Qed.

Lemma sort_by_count_sorted views :
  StronglySorted (λ a b : Z * Z, b.2 <= a.2) (sort_by_count views).
Proof.
  unfold sort_by_count.
  eapply (StronglySorted_weaken (λ a b : Z * Z, bool_decide (b.2 <= a.2) = true)).
  - intros a b Hab. by apply bool_decide_eq_true in Hab.
  - apply stable_sort_sorted.
    + intros x y. rewrite !bool_decide_eq_true. lia.
    + intros x y z. rewrite !bool_decide_eq_true. lia.
Qed.

Lemma sorted_lt_NoDup (l : list Z) : StronglySorted Z.lt l → NoDup l.
Proof.
  induction 1 as [|x l Hl IH Hx]; constructor; [|done].
  intros Hin. eapply Forall_forall in Hx; [|exact Hin]. simpl in Hx. lia.
Qed.

Lemma elem_of_groupby_count {A} (key : A → Z) df k c :
  (k, c) ∈ groupby_count key df ↔
  k ∈ key <$> df ∧ c = len (filter (λ r, key r = k) df).
Proof.
  unfold groupby_count. split.
  - intros (k' & Heq & Hk)%list_elem_of_fmap. injection Heq as -> ->.
    split; [|done]. rewrite elem_of_sorted_unique in Hk. exact Hk.
  - intros [Hk ->]. apply list_elem_of_fmap. exists k. split; [done|].
    rewrite elem_of_sorted_unique. exact Hk.
Qed.

Lemma NoDup_all_equal {A} (l : list A) a :
  NoDup l → (∀ x, x ∈ l → x = a) → a ∈ l → l = [a].
Proof.
  intros Hnd Hall Ha. destruct l as [|x l]; [by apply elem_of_nil in Ha|].
  rewrite (Hall x (list_elem_of_here _ _)). f_equal.
  destruct l as [|y l]; [done|].
  apply NoDup_cons in Hnd as [Hnotin _]. destruct Hnotin.
  rewrite (Hall x (list_elem_of_here _ _)).
  rewrite <- (Hall y (list_elem_of_further _ _ _ (list_elem_of_here _ _))).
  apply list_elem_of_here.
Qed.

(** The titles [get_top_articles] reads for one item id. *)
Lemma titles_of_item df i t :
  (∀ r1 r2, r1 ∈ df → r2 ∈ df → article_id r1 = article_id r2 →
            title r1 = title r2) →
  (∃ r, r ∈ df ∧ article_id r = i ∧ title r = t) →
  (filter (λ it : Z * string, it.1 = i)
          (unique [] (map (λ r, (article_id r, title r)) df))).*2 = [t].
Proof.
  intros Hfun (r & Hr & <- & <-).
  rewrite (NoDup_all_equal _ (article_id r, title r)); [done| | |].
  - apply NoDup_filter, NoDup_unique.
  - intros [i' t'] [Hi Hin]%list_elem_of_filter. simpl in Hi. subst i'.
    apply elem_of_unique in Hin as [Hin _].
    apply list_elem_of_fmap in Hin as (r' & [= Hi' ->] & Hr').
    f_equal. by apply Hfun.
  - apply list_elem_of_filter. split; [done|].
    apply elem_of_unique. split; [|apply not_elem_of_nil].
    apply list_elem_of_fmap. by exists r.
Qed.

Lemma NoDup_fmap_eq {A B} (f : A → B) (l : list A) x y :
  NoDup (f <$> l) → x ∈ l → y ∈ l → f x = f y → x = y.
Proof.
  induction l as [|z l IH]; intros Hnd Hx Hy Hxy; [by apply elem_of_nil in Hx|].
  rewrite fmap_cons in Hnd. apply NoDup_cons in Hnd as [Hz Hnd].
  apply elem_of_cons in Hx as [->|Hx]; apply elem_of_cons in Hy as [->|Hy].
  - done.
  - destruct Hz. rewrite Hxy. by apply list_elem_of_fmap_2.
  - destruct Hz. rewrite <- Hxy. by apply list_elem_of_fmap_2.
  - by apply IH.
Qed.

(** When no two lines have the same count, every arrangement of the lines
    by descending count is the one [sort_by_count] returns. *)
Lemma sort_by_count_determined (views ranking : list (Z * Z)) :
  NoDup views.*2 →
  ranking ≡ₚ views →
  StronglySorted (λ a b : Z * Z, b.2 <= a.2) ranking →
  ranking = sort_by_count views.
Proof.
  intros Hnd Hperm Hsorted.
  apply (StronglySorted_unique_strong (λ a b : Z * Z, b.2 <= a.2)).
  - intros x1 x2 Hx1 Hx2 H12 H21.
    apply (NoDup_fmap_eq snd views); [done| | |].
    + by rewrite <- Hperm.
    + by rewrite <- (sort_by_count_perm views).
    + simpl in *. lia.
  - done.
  - apply sort_by_count_sorted.
  - by rewrite Hperm, (sort_by_count_perm views).
Qed.

(** The order of [unique]: a value that comes earlier in the result occurs
    in the list before the first occurrence of any value that comes later. *)
Lemma unique_order `{EqDecision A} (l : list A) : ∀ seen (i j : nat) a b,
  unique seen l !! i = Some a → unique seen l !! j = Some b → (i < j)%nat →
  ∃ l1 l2, l = l1 ++ a :: l2 ∧ b ∉ l1.
Proof.
  induction l as [|x l IH]; intros seen i j a b Hi Hj Hij; [done|].
  cbn [unique] in Hi, Hj. destruct (decide (x ∈ seen)) as [Hx|Hx].
  - destruct (IH seen i j a b Hi Hj Hij) as (l1 & l2 & -> & Hb).
    exists (x :: l1), l2. split; [done|].
    apply not_elem_of_cons. split; [|done]. intros ->.
    assert (x ∈ unique seen (l1 ++ a :: l2)) as Hin
      by (apply list_elem_of_lookup; eauto).
    apply elem_of_unique in Hin as [_ Hin]. done.
  - destruct i as [|i]; destruct j as [|j]; try lia.
    + simpl in Hi. injection Hi as <-. exists [], l. split; [done|].
      apply not_elem_of_nil.
    + simpl in Hi, Hj.
      destruct (IH (x :: seen) i j a b Hi Hj ltac:(lia)) as (l1 & l2 & -> & Hb).
      exists (x :: l1), l2. split; [done|].
      apply not_elem_of_cons. split; [|done]. intros ->.
      assert (x ∈ unique (x :: seen) (l1 ++ a :: l2)) as Hin
        by (apply list_elem_of_lookup; eauto).
      apply elem_of_unique in Hin as [_ Hin]. apply Hin, list_elem_of_here.
Qed.

(** A place in the titles of the selected rows is a place in the table. *)
Lemma fmap_filter_split {A B} (f : A → B) (P : A → Prop)
    `{∀ x, Decision (P x)} (df : list A) : ∀ l1 a l2,
  f <$> filter P df = l1 ++ a :: l2 →
  ∃ d1 r d2, df = d1 ++ r :: d2 ∧ P r ∧ f r = a ∧ f <$> filter P d1 = l1.
Proof.
  induction df as [|x df IH]; intros l1 a l2 Heq.
  - by destruct l1.
  - rewrite filter_cons in Heq. destruct (decide (P x)) as [Hx|Hx].
    + rewrite fmap_cons in Heq. destruct l1 as [|b l1].
      * injection Heq as <- _. exists [], x, df. done.
      * injection Heq as <- Heq.
        destruct (IH l1 a l2 Heq) as (d1 & r & d2 & -> & Hr & Ha & Hd1).
        exists (x :: d1), r, d2. split_and!; try done.
        rewrite filter_cons, decide_True by done.
        by rewrite fmap_cons, Hd1.
    + destruct (IH l1 a l2 Heq) as (d1 & r & d2 & -> & Hr & Ha & Hd1).
      exists (x :: d1), r, d2. split_and!; try done.
      by rewrite filter_cons, decide_False by done.
Qed.

End titles.

(** X14.  [get_article_names], given both arguments, returns the distinct
    titles of the rows of the table whose item id is among the ids, in the
    order in which the table first shows them: a title that comes earlier in
    the result has a selected row before every selected row of a title that
    comes later.  The order (and the repetitions) of the ids play no part. *)
Theorem get_article_names_titles (article_ids : list Z) (df : list interaction) :
  ∃ article_names,
    get_article_names (passed article_ids) (passed df) = Ok article_names ∧
    NoDup article_names ∧
    (∀ t, t ∈ article_names ↔
          ∃ r, r ∈ df ∧ article_id r ∈ article_ids ∧ title r = t) ∧
    (∀ (i j : nat) t1 t2,
       article_names !! i = Some t1 → article_names !! j = Some t2 →
       (i < j)%nat →
       ∃ before r after,
         df = before ++ r :: after ∧
         article_id r ∈ article_ids ∧ title r = t1 ∧
         ∀ r', r' ∈ before → article_id r' ∈ article_ids → title r' ≠ t2) ∧
    (∀ article_ids', (∀ i, i ∈ article_ids ↔ i ∈ article_ids') →
       get_article_names (passed article_ids') (passed df) = Ok article_names).
Proof.
  eexists. split_and!; [reflexivity| | | |].
  - apply NoDup_unique.
  - intros t. rewrite elem_of_unique, list_elem_of_fmap. split.
    + intros [(r & -> & [Hid Hr]%list_elem_of_filter) _]. eauto.
    + intros (r & Hr & Hid & <-). split; [|apply not_elem_of_nil].
      exists r. split; [done|]. by apply list_elem_of_filter.
  - intros i j t1 t2 Hi Hj Hij.
    destruct (unique_order _ _ _ _ _ _ Hi Hj Hij) as (l1 & l2 & Hsplit & Hnot).
    destruct (fmap_filter_split title (λ r, article_id r ∈ article_ids)
                df l1 t1 l2 Hsplit) as (d1 & r & d2 & -> & Hr & Ht & Hd1).
    exists d1, r, d2. split_and!; try done.
    intros r' Hr' Hid' Heq. apply Hnot. rewrite <- Hd1, <- Heq.
    apply list_elem_of_fmap_2. by apply list_elem_of_filter.
  - intros ids' Hext. unfold get_article_names. simpl. do 3 f_equal.
    apply list_filter_iff. intros r. by rewrite Hext.
Qed.

(** X15.  The popularity ranking used by both paths lists every item of the
    table once, with its number of rows, most viewed first. *)
Theorem article_views_by_popularity (df : list interaction) :
  let article_views := sort_by_count (groupby_count article_id df) in
  StronglySorted (λ a b : Z * Z, b.2 <= a.2) article_views ∧
  NoDup article_views.*1 ∧
  (∀ i c, (i, c) ∈ article_views ↔
          i ∈ article_id <$> df ∧
          c = len (filter (λ r, article_id r = i) df)).
Proof.
  intros views. split_and!.
  - apply sort_by_count_sorted.
  - unfold views. rewrite (sort_by_count_perm _), groupby_count_keys.
    apply sorted_lt_NoDup, sorted_unique_sorted.
  - intros i c. unfold views.
    rewrite (sort_by_count_perm _). apply elem_of_groupby_count.
Qed.

(** X16.  Every title [get_top_articles] returns is a title of the table.
    When no two items of the table have the same number of views and no
    item id has two titles, then for every arrangement of the view counts
    by descending count (there is one only) it returns one title per line
    of the first [n] lines, in the order of the lines, hence at most [n]
    titles for [n >= 0]. *)
Theorem get_top_articles_titles (df : list interaction) (n : Z) :
  (∀ t, t ∈ get_top_articles df n → ∃ r, r ∈ df ∧ title r = t) ∧
  (NoDup (groupby_count article_id df).*2 →
   (∀ r1 r2, r1 ∈ df → r2 ∈ df → article_id r1 = article_id r2 →
             title r1 = title r2) →
   - 2 ^ 63 <= n < 2 ^ 63 →
   ∀ ranking,
     ranking ≡ₚ groupby_count article_id df →
     StronglySorted (λ a b : Z * Z, b.2 <= a.2) ranking →
     Forall2 (λ (av : Z * Z) t, ∃ r, r ∈ df ∧ article_id r = av.1 ∧ title r = t)
             (slice_to ranking n) (get_top_articles df n) ∧
     (0 <= n → len (get_top_articles df n) <= n)).
Proof.
  split.
  - intros t. unfold get_top_articles.
    intros (i & Ht & _)%list_elem_of_bind.
    apply list_elem_of_fmap in Ht as ([i' t'] & -> & [_ Hin]%list_elem_of_filter).
    apply elem_of_unique in Hin as [Hin _].
    apply list_elem_of_fmap in Hin as (r & [= _ ->] & Hr). eauto.
  - intros Hnd Hfun _ ranking Hperm Hsorted.
    rewrite (sort_by_count_determined _ ranking Hnd Hperm Hsorted).
    assert (Forall2 (λ (av : Z * Z) t,
                       ∃ r, r ∈ df ∧ article_id r = av.1 ∧ title r = t)
              (slice_to (sort_by_count (groupby_count article_id df)) n)
              (get_top_articles df n)) as Hall.
    { unfold get_top_articles.
      assert (∀ av, av ∈ slice_to (sort_by_count (groupby_count article_id df)) n →
                    av.1 ∈ article_id <$> df) as Hkeys.
      { intros [i c] Hav%elem_of_slice_to.
        rewrite (sort_by_count_perm _) in Hav.
        by apply elem_of_groupby_count in Hav as [? _]. }
      induction (slice_to (sort_by_count (groupby_count article_id df)) n)
        as [|av l IH]; [constructor|].
      destruct (proj1 (list_elem_of_fmap _ _ _) (Hkeys av (list_elem_of_here _ _)))
        as (r & Hav & Hr).
      rewrite fmap_cons. cbn [mbind list_bind].
      rewrite (titles_of_item df av.1 (title r)) by eauto.
      simpl. constructor; [by exists r|].
      apply IH. intros av' Hav'. apply Hkeys. by apply list_elem_of_further. }
    split; [done|]. intros Hn.
    apply Forall2_length in Hall. unfold len in *. rewrite <- Hall.
    by apply slice_to_length.
Qed.

(** The two most viewed items of [three_users], whose items have 3, 2 and
    1 views. *)
Lemma get_top_articles_titles_witness :
  len (get_top_articles three_users 2) <= 2.
Proof.
  refine (proj2 (proj2 (get_top_articles_titles three_users 2) _ _ _
                   [(10, 3); (20, 2); (30, 1)] _ _) _).
  - apply (bool_decide_unpack _). vm_compute. exact I.
  - assert (Forall (λ r1, Forall (λ r2, article_id r1 = article_id r2 →
                                        title r1 = title r2) three_users)
                   three_users) as Hall
      by (apply (bool_decide_unpack _); vm_compute; exact I).
    intros r1 r2 H1 H2.
    eapply Forall_forall in Hall; [|exact H1].
    eapply Forall_forall in Hall; [|exact H2]. exact Hall.
  - vm_compute. split; [discriminate|reflexivity].
  - vm_compute. reflexivity.
  - repeat (apply SSorted_cons || apply SSorted_nil || apply Forall_cons_2
            || apply Forall_nil_2); simpl; lia.
  - lia.
Defined.

(** ** The neighbour ranker, continued *)

Section ranker_columns.

Lemma merge_left_right {A B} (left : list (Z * A)) (right : list (Z * B)) line b :
  line ∈ merge_left left right → line.2 = Some b → (line.1.1, b) ∈ right.
Proof.
  unfold merge_left. intros (l & Hin & Hl)%list_elem_of_bind Hb.
  destruct (filter (λ kb : Z * B, kb.1 = l.1) right) as [|m ms] eqn:Hf.
  - apply list_elem_of_singleton in Hin as ->. discriminate Hb.
  - apply list_elem_of_fmap in Hin as (kb & -> & Hkb).
    rewrite <- Hf in Hkb. apply list_elem_of_filter in Hkb as [Hk Hkb].
    simpl in *. injection Hb as <-. rewrite <- Hk. by destruct kb.
Qed.

Lemma dot_tabulate (f : Z → Z → Z) idx cols row :
  dot {| index := idx; columns := cols;
         values := map (λ u, map (λ i, f u i) cols) idx |} row
  = map (λ u, (u, dot_rows (map (λ i, f u i) cols) row)) idx.
Proof.
  unfold dot. simpl. induction idx as [|u idx IH]; [done|].
  simpl. by rewrite IH.
Qed.

Lemma dot_rows_binary (f g : Z → Z) cols :
  (∀ i, f i = 0 ∨ f i = 1) → (∀ i, g i = 0 ∨ g i = 1) →
  dot_rows (map f cols) (map g cols)
  = len (filter (λ i, f i = 1 ∧ g i = 1) cols).
Proof.
  intros Hf Hg. unfold dot_rows, len, sum_list.
  induction cols as [|c cols IH]; [done|].
  cbn [map zip_with foldr]. rewrite IH, filter_cons.
  destruct (Hf c) as [Hfc|Hfc], (Hg c) as [Hgc|Hgc]; rewrite Hfc, Hgc;
    case_decide; simpl; lia.
Qed.

Lemma similarity_common_items df v :
  dot_rows (map (λ i, presence df v i) (sorted_unique (article_id <$> df)))
           (map (λ i, presence df 1 i) (sorted_unique (article_id <$> df)))
  = len (common_items df v 1).
Proof.
  rewrite (dot_rows_binary (presence df v) (presence df 1))
    by apply presence_binary.
  unfold common_items. f_equal. apply list_filter_iff. intros i.
  by rewrite !presence_1_iff, !presence_of_interacted.
Qed.

End ranker_columns.

(** X17.  [get_top_sorted_users] looks up the row labelled 1 whoever the
    target is: on a matrix without that row it raises [KeyError], also for a
    target that has a row. *)
Theorem get_top_sorted_users_needs_row_1
    (u : Z) (df : list interaction) (user_item : matrix) :
  1 ∉ index user_item →
  get_top_sorted_users (passed u) (passed df) (passed user_item)
  = Raise KeyError.
Proof.
  intros H1. unfold get_top_sorted_users. simpl. by rewrite loc_missing.
Qed.

Lemma get_top_sorted_users_needs_row_1_witness :
  let df := [ {| article_id := 10; title := "ten"; user_id := 2 |};
              {| article_id := 10; title := "ten"; user_id := 3 |} ] in
  index (create_user_item_matrix df) = [2; 3] ∧
  get_top_sorted_users (passed 2) (passed df)
    (passed (create_user_item_matrix df)) = Raise KeyError.
Proof.
  intros df. split; [reflexivity|].
  apply (get_top_sorted_users_needs_row_1 2 df (create_user_item_matrix df)).
  intros Hin. apply (bool_decide_pack _) in Hin. vm_compute in Hin. exact Hin.
Defined.

(** X18.  On the matrix of a table in which user 1 occurs, every line of
    the result carries, as similarity, the number of items its user shares
    with user 1, and as interaction count the number of rows of its user in
    the table, repeated views included. *)
Theorem get_top_sorted_users_columns (df : list interaction) (u : Z) :
  1 ∈ user_id <$> df →
  ∃ neighbors_df,
    get_top_sorted_users (passed u) (passed df)
      (passed (create_user_item_matrix df)) = Ok neighbors_df ∧
    (∀ r, r ∈ neighbors_df →
          similarity r = len (common_items df (neighbor_id r) 1) ∧
          num_interactions r
          = Some (len (filter (λ x, user_id x = neighbor_id r) df))) ∧
    (∀ v i, i ∈ common_items df v 1 ↔ interacted df v i ∧ interacted df 1 i) ∧
    (∀ v, NoDup (common_items df v 1)).
Proof.
  intros H1.
  pose proof (create_user_item_matrix_tabulate df) as Hm.
  set (m := create_user_item_matrix df) in *.
  assert (loc m 1 = Ok (map (λ i, presence df 1 i)
                            (sorted_unique (article_id <$> df)))) as Hloc.
  { rewrite Hm. apply (loc_tabulate (presence df)).
    by apply elem_of_sorted_unique. }
  eexists. split_and!.
  - by apply get_top_sorted_users_run.
  - intros r [Hr _]%elem_of_rank_neighbors.
    assert (length (index m) = length (values m)) as Hlen.
    { rewrite Hm. simpl. by rewrite length_map. }
    assert (is_Some (num_interactions r)) as [c Hc].
    { assert (Forall (λ r, is_Some (num_interactions r))
                     (joined df m (map (λ i, presence df 1 i)
                                       (sorted_unique (article_id <$> df)))))
        as Hall.
      { apply joined_counted; [done|]. intros v. rewrite Hm. simpl.
        by rewrite elem_of_sorted_unique. }
      by eapply Forall_forall in Hall. }
    unfold joined in Hr. apply list_elem_of_fmap in Hr as (line & -> & Hline).
    simpl in *. split.
    + apply merge_left_left in Hline. rewrite Hm, dot_tabulate in Hline.
      apply list_elem_of_fmap in Hline as (v & [= -> ->] & _).
      apply similarity_common_items.
    + rewrite Hc. f_equal.
      pose proof (merge_left_right _ _ _ _ Hline Hc) as Hright.
      by apply elem_of_groupby_count in Hright as [_ ->].
  - intros v i. unfold common_items.
    rewrite list_elem_of_filter, !presence_of_interacted, elem_of_sorted_unique.
    split; [tauto|]. intros [Hv H1i]. split; [done|].
    destruct Hv as (r & Hr & _ & <-). by apply list_elem_of_fmap_2.
  - intros v. apply NoDup_filter, sorted_lt_NoDup, sorted_unique_sorted.
Qed.

Lemma get_top_sorted_users_columns_witness :
  ∃ neighbors_df,
    get_top_sorted_users (passed 3) (passed three_users)
      (passed (create_user_item_matrix three_users)) = Ok neighbors_df ∧
    ∀ r, r ∈ neighbors_df →
         similarity r = len (common_items three_users (neighbor_id r) 1).
Proof.
  destruct (get_top_sorted_users_columns three_users 3)
    as (out & Hrun & Hcols & _).
  - apply list_elem_of_here.
  - exists out. split; [exact Hrun|]. intros r Hr. apply (Hcols r Hr).
Defined.

(** X20.  When the interaction source does not exist, the cleaning entry
    point raises [FileNotFoundError] after its first progress line: no file
    is read or written and no folder made. *)
Theorem clean_main_missing_source
    (prog user_item_path articles_path : string) (w : world) :
  files w !! user_item_path = None →
  CleanData.main [prog; user_item_path; articles_path] w
  = (Raise FileNotFoundError,
     log (Print ("1/3. Loading and cleaning data..." +:+ nl +:+
                 "   DATA FILE: {}" +:+ nl +:+ "    DATA FILE: {}")
            [SStr user_item_path; SStr articles_path] "") w).
Proof.
  intros Hmiss. unfold CleanData.main.
  erewrite bind_ok by reflexivity.
  erewrite bind_raise; [done|].
  unfold clean_data. erewrite bind_raise; [done|].
  unfold read_interactions. erewrite bind_raise; [done|].
  by apply read_csv_missing.
Qed.

Lemma clean_main_missing_source_witness :
  (CleanData.main ["clean_data.py"; "interactions.csv"; "articles.csv"]
     {| dirs := ∅; files := ∅; trace := [] |}).1
  = Raise FileNotFoundError.
Proof.
  rewrite (clean_main_missing_source "clean_data.py" "interactions.csv"
             "articles.csv" {| dirs := ∅; files := ∅; trace := [] |}).
  - reflexivity.
  - reflexivity.
Defined.
